(** * service.localstore.prop: the metadata propagator, embedded in Rocq

    A shallow embedding of [server.go]: the handlers [Mv], [Rm] and [Put],
    the helpers [getRecordsWithPathPrefix], [getByPath], [insert], [update],
    [propagateChanges] and [getPathsTillHome], together with the pieces of
    the Go standard library ([strings], [path]) and of the gorm/MySQL store
    they are built on.

    Conventions.
    - A Go [string] is a Rocq [string]; one character stands for one byte,
      which is also one rune on ASCII text (the only place where Go works on
      runes rather than bytes is the cutset of [strings.Trim]).
    - [uint32] values are kept in [N], the conversion [uint32(x)] is written
      out as a reduction modulo [2^32]; [int64] values are kept in [Z].
    - A Go function returning [(v, error)] returns a pair whose second
      component is an [option error]; [None] is Go's [nil].
    - A run-time panic is an outcome of its own ([Panic]), never a value.
    - Values the handlers draw from the outside ([uuid.New()],
      [time.Now().Unix()]) are arguments of the embedded handlers. *)

From Stdlib Require Import String Ascii List ZArith NArith Bool Lia.
Import ListNotations.
Open Scope string_scope.

(* ------------------------------------------------------------------ *)
(** ** Package [strings] *)

Module strings.

(** [strings.Split(s, sep)] for a one-byte separator: always [1 + number
    of separators] tokens, the empty string gives one empty token. *)
Fixpoint Split (s : string) (sep : ascii) : list string :=
  match s with
  | EmptyString => [EmptyString]
  | String c s' =>
      if Ascii.eqb c sep then EmptyString :: Split s' sep
      else match Split s' sep with
           | [] => [String c EmptyString]
           | t :: ts => String c t :: ts
           end
  end.

(** [strings.Join(elems, sep)]. *)
Definition Join (elems : list string) (sep : string) : string :=
  String.concat sep elems.

(** Membership of a character in a cutset. *)
Fixpoint in_cutset (c : ascii) (cutset : string) : bool :=
  match cutset with
  | EmptyString => false
  | String d cutset' => Ascii.eqb c d || in_cutset c cutset'
  end.

(** [strings.TrimLeft(s, cutset)]: drop leading characters that occur
    anywhere in [cutset]. *)
Fixpoint TrimLeft (s cutset : string) : string :=
  match s with
  | EmptyString => EmptyString
  | String c s' => if in_cutset c cutset then TrimLeft s' cutset else s
  end.

(** [strings.TrimRight(s, cutset)]: drop trailing characters that occur
    anywhere in [cutset]. *)
Fixpoint TrimRight (s cutset : string) : string :=
  match s with
  | EmptyString => EmptyString
  | String c s' =>
      match TrimRight s' cutset with
      | EmptyString => if in_cutset c cutset then EmptyString
                       else String c EmptyString
      | t => String c t
      end
  end.

(** [strings.Trim(s, cutset)]: [cutset] is a SET of characters, not a
    prefix or suffix. *)
Definition Trim (s cutset : string) : string :=
  TrimRight (TrimLeft s cutset) cutset.

End strings.

(* ------------------------------------------------------------------ *)
(** ** Package [path] *)

Module path.

(** [rooted := path[0] == '/'] *)
Definition rooted (p : string) : bool :=
  match p with
  | String c _ => Ascii.eqb c "/"
  | EmptyString => false
  end.

(** One step of [Clean]'s scan, on the path element [e] that starts at the
    read position.  [out] is the output buffer as the stack of elements
    written so far, innermost first.  Go's [dotdot] mark separates the
    leading [..] elements of an unrooted path, which cannot be removed,
    from the real elements after them; an element of the stack is
    removable exactly when it is not [..]. *)
Definition clean_step (isrooted : bool) (out : list string) (e : string)
  : list string :=
  if (e =? "") || (e =? ".") then out
  else if e =? ".." then
    match out with
    | top :: out' => if top =? ".." then e :: out else out'
    | [] => if isrooted then out else [e]
    end
  else e :: out.

(** The buffer as a string. *)
Definition render (isrooted : bool) (out : list string) : string :=
  if isrooted then "/" ++ strings.Join (rev out) "/"
  else match out with
       | [] => "."
       | _ => strings.Join (rev out) "/"
       end.

(** [path.Clean]. *)
Definition Clean (p : string) : string :=
  if p =? "" then "."
  else
    let isrooted := rooted p in
    render isrooted (fold_left (clean_step isrooted) (strings.Split p "/") []).

(** [path.Join(elem...)]: leading empty elements are ignored, the rest is
    joined with slashes and cleaned; all empty gives the empty string. *)
Fixpoint Join (elem : list string) : string :=
  match elem with
  | [] => ""
  | e :: rest =>
      if e =? "" then Join rest else Clean (strings.Join elem "/")
  end.

End path.

(* ------------------------------------------------------------------ *)
(** ** The store: table [records] behind gorm and MySQL *)

(** A row of table [records].  The declaration of the struct is not in
    [server.go]; the fields are the ones [server.go] reads and writes
    ([rec.ID], [rec.Path], [rec.Checksum], [rec.ETag], [rec.MTime], the
    last one a [uint32]). *)
Record record : Type := mkRecord {
  ID : string;
  Path : string;
  Checksum : string;
  ETag : string;
  MTime : N
}.

(** Go's [error] values that reach the handlers. *)
Inductive error : Type :=
| unauthenticatedError            (* grpc.Errorf(codes.Unauthenticated, ...) *)
| permissionDenied                (* grpc.Errorf(codes.PermissionDenied, ...) *)
| RecordNotFound                  (* gorm.RecordNotFound *)
| driverError (msg : string).     (* any failure of the database itself *)

Definition error_eqb (a b : error) : bool :=
  match a, b with
  | unauthenticatedError, unauthenticatedError => true
  | permissionDenied, permissionDenied => true
  | RecordNotFound, RecordNotFound => true
  | driverError m, driverError n => m =? n
  | _, _ => false
  end.

(** Arguments of a formatted log line. *)
Inductive logarg : Type :=
| Astr (s : string)
| Anum (n : N).

(** What the logger has received.  Only [Error] and [Warn] records are
    kept: the [Info] lines of [server.go] change nothing and no property
    below is about them. *)
Inductive entry : Type :=
| LogError (e : error)
| LogWarnf (format : string) (args : list logarg).

(** A write statement, as the function it applies to the table. *)
Definition write : Type := list record -> list record.

(** The world a handler runs in.
    - [rows]: the committed content of table [records], in table order;
    - [pending]: the writes issued on the open transaction handle and not
      yet committed;
    - [faults]: what the database will answer to the coming statements, one
      entry per statement: [None] lets the statement execute, [Some msg]
      makes it fail with [driverError msg] and without effect; past the end
      of the list every statement executes;
    - [logs]: the log, oldest entry first. *)
Record world : Type := mkWorld {
  rows : list record;
  pending : list write;
  faults : list (option string);
  logs : list entry
}.

Definition set_rows (rs : list record) (w : world) : world :=
  mkWorld rs (pending w) (faults w) (logs w).
Definition set_pending (ps : list write) (w : world) : world :=
  mkWorld (rows w) ps (faults w) (logs w).
Definition set_faults (fs : list (option string)) (w : world) : world :=
  mkWorld (rows w) (pending w) fs (logs w).
Definition add_log (e : entry) (w : world) : world :=
  mkWorld (rows w) (pending w) (faults w) (logs w ++ [e]).

(** Outcome of a call: it returns, or the goroutine panics. *)
Inductive res (A : Type) : Type :=
| Ret (a : A)
| Panic (msg : string).
Arguments Ret {A} a.
Arguments Panic {A} msg.

(** Computations over the world that may panic. *)
Definition M (A : Type) : Type := world -> res A * world.

Definition ret {A} (a : A) : M A := fun w => (Ret a, w).

Definition bind {A B} (m : M A) (k : A -> M B) : M B :=
  fun w =>
    match m w with
    | (Ret a, w') => k a w'
    | (Panic msg, w') => (Panic msg, w')
    end.

Definition lift {A} (r : res A) : M A := fun w => (r, w).

Declare Scope go_scope.
Delimit Scope go_scope with go.
Notation "x <- c ;; k" := (bind c (fun x => k))
  (at level 61, c at next level, right associativity) : go_scope.
Notation "' pat <- c ;; k" := (bind c (fun pat => k))
  (at level 61, pat pattern, c at next level, right associativity) : go_scope.
Notation "c ;;; k" := (bind c (fun _ => k))
  (at level 61, right associativity) : go_scope.
Open Scope go_scope.

Definition log_Error (e : error) : M unit :=
  fun w => (Ret tt, add_log (LogError e) w).
Definition log_Warnf (format : string) (args : list logarg) : M unit :=
  fun w => (Ret tt, add_log (LogWarnf format args) w).

(** The answer of the database to the next statement. *)
Definition next_fault : M (option string) :=
  fun w =>
    match faults w with
    | [] => (Ret None, w)
    | f :: fs => (Ret f, set_faults fs w)
    end.

Module sql.

(** SQL [s LIKE pat]: [%] stands for any run of characters, [_] for any
    one character, a backslash takes the next pattern character
    literally.  Characters are compared exactly (a binary collation). *)
Fixpoint like (pat s : list ascii) : bool :=
  match pat with
  | [] => match s with [] => true | _ :: _ => false end
  | c :: pat' =>
      if Ascii.eqb c "%" then
        (fix any (s : list ascii) : bool :=
           like pat' s || match s with [] => false | _ :: s' => any s' end) s
      else if Ascii.eqb c "_" then
        match s with [] => false | _ :: s' => like pat' s' end
      else if Ascii.eqb c "\" then
        match pat' with
        | [] => match s with [d] => Ascii.eqb d "\" | _ => false end
        | e :: pat'' =>
            match s with
            | [] => false
            | d :: s' => Ascii.eqb d e && like pat'' s'
            end
        end
      else
        match s with
        | [] => false
        | d :: s' => Ascii.eqb d c && like pat' s'
        end
  end.

Definition LIKE (s pat : string) : bool :=
  like (list_ascii_of_string pat) (list_ascii_of_string s).

End sql.

(** A character that stands for itself in a [LIKE] pattern. *)
Definition literal_char (c : ascii) : bool :=
  negb (Ascii.eqb c "%") && negb (Ascii.eqb c "_") && negb (Ascii.eqb c "\").

(** A string without [LIKE] wildcards. *)
Fixpoint literal (p : string) : bool :=
  match p with
  | EmptyString => true
  | String c p' => literal_char c && literal p'
  end.

Module gorm.

(** What a gorm call chain leaves in the [*gorm.DB] it returns. *)
Record result : Type := mkResult {
  Error : option error;
  RowsAffected : Z
}.

(** The handle a statement is issued on: the connection pool [s.db]
    (every statement is committed at once) or the transaction [tx]
    (the statement waits for [Commit]). *)
Inductive handle : Type := s_db | tx.

(** [Updates(record{...})] with a struct argument writes the fields of
    the struct that are not blank, and only those. *)
Definition assign (vals r : record) : record :=
  mkRecord (if ID vals =? "" then ID r else ID vals)
           (if Path vals =? "" then Path r else Path vals)
           (if Checksum vals =? "" then Checksum r else Checksum vals)
           (if ETag vals =? "" then ETag r else ETag vals)
           (if (MTime vals =? 0)%N then MTime r else MTime vals).

Definition update_where (sel : record -> bool) (vals : record) : write :=
  map (fun r => if sel r then assign vals r else r).

Definition count_where (sel : record -> bool) (rs : list record) : Z :=
  Z.of_nat (length (filter sel rs)).

(** [h.Model(record{}).Where(sel).Updates(vals)]. *)
Definition Updates (h : handle) (sel : record -> bool) (vals : record)
  : M result :=
  f <- next_fault ;;
  match f with
  | Some msg => ret (mkResult (Some (driverError msg)) 0)
  | None =>
      fun w =>
        let n := count_where sel (rows w) in
        match h with
        | s_db => (Ret (mkResult None n),
                   set_rows (update_where sel vals (rows w)) w)
        | tx => (Ret (mkResult None n),
                 set_pending (pending w ++ [update_where sel vals]) w)
        end
  end.

(** [s.db.Where(sel).Find(&recs)]; [recs] stays nil when the query
    fails. *)
Definition Find (sel : record -> bool) : M (list record * result) :=
  f <- next_fault ;;
  match f with
  | Some msg => ret ([], mkResult (Some (driverError msg)) 0)
  | None =>
      fun w =>
        let recs := filter sel (rows w) in
        (Ret (recs, mkResult None (Z.of_nat (length recs))), w)
  end.

(** [s.db.Where(sel).First(r)]; [r] stays the zero record when no row
    is found or the query fails. *)
Definition First (sel : record -> bool) : M (record * result) :=
  f <- next_fault ;;
  match f with
  | Some msg =>
      ret (mkRecord "" "" "" "" 0, mkResult (Some (driverError msg)) 0)
  | None =>
      fun w =>
        match find sel (rows w) with
        | Some r => (Ret (r, mkResult None 1), w)
        | None =>
            (Ret (mkRecord "" "" "" "" 0, mkResult (Some RecordNotFound) 0),
             w)
        end
  end.

(** [s.db.Where(sel).Delete(record{})]. *)
Definition Delete (sel : record -> bool) : M result :=
  f <- next_fault ;;
  match f with
  | Some msg => ret (mkResult (Some (driverError msg)) 0)
  | None =>
      fun w =>
        (Ret (mkResult None (count_where sel (rows w))),
         set_rows (filter (fun r => negb (sel r)) (rows w)) w)
  end.

(** Modelled from the spec: the declaration of [record], and with it the
    keys of table [records], is missing from the sources; the spec makes
    [id] the identifier of a row and [path] unique per row, so a row to
    insert is a duplicate of a stored row with the same [id] or the same
    [path].

    [INSERT INTO records (id,path,checksum,e_tag,m_time) VALUES (...)
     ON DUPLICATE KEY UPDATE checksum=VALUES(checksum),
     e_tag=VALUES(e_tag), m_time=VALUES(m_time)]: the first duplicate row
    takes the new checksum, etag and mtime and keeps its id and path;
    without a duplicate the row is added. *)
Fixpoint upsert (new : record) (rs : list record) : list record :=
  match rs with
  | [] => [new]
  | r :: rs' =>
      if (ID r =? ID new) || (Path r =? Path new)
      then mkRecord (ID r) (Path r) (Checksum new) (ETag new) (MTime new)
           :: rs'
      else r :: upsert new rs'
  end.

(** [s.db.Exec("INSERT ... ON DUPLICATE KEY UPDATE ...", ...)]. *)
Definition Exec_insert (new : record) : M result :=
  f <- next_fault ;;
  match f with
  | Some msg => ret (mkResult (Some (driverError msg)) 0)
  | None =>
      fun w => (Ret (mkResult None 1), set_rows (upsert new (rows w)) w)
  end.

(** [s.db.Begin()]: a transaction with nothing issued on it yet. *)
Definition Begin : M handle :=
  fun w => (Ret tx, set_pending [] w).

(** [tx.Commit()]: the writes issued on [tx] reach the table. *)
Definition Commit (h : handle) : M unit :=
  fun w =>
    (Ret tt,
     set_pending []
       (set_rows (fold_left (fun rs (f : write) => f rs) (pending w) (rows w))
                 w)).

(** [tx.Rollback()]: the writes issued on [tx] are dropped. *)
Definition Rollback (h : handle) : M unit :=
  fun w => (Ret tt, set_pending [] w).

End gorm.

(* ------------------------------------------------------------------ *)
(** ** [server.go] *)

(** [uint32(x)] for an [int64] [x]. *)
Definition uint32 (x : Z) : N := Z.to_N (x mod 2 ^ 32).

(** Requests of the three mutating calls ([pb.MvReq], [pb.RmReq],
    [pb.PutReq]). *)
Record MvReq : Type := mkMvReq {
  Mv_AccessToken : string; Src : string; Dst : string }.
Record RmReq : Type := mkRmReq {
  Rm_AccessToken : string; Rm_Path : string }.
Record PutReq : Type := mkPutReq {
  Put_AccessToken : string; Put_Path : string; Put_Checksum : string }.

Record newServerParams : Type := mkParams {
  dsn : string;
  sharedSecret : string
}.

(** [tokens[0:5]] and [tokens[5:]] of [getPathsTillHome]; the slice that
    [strings.Split] returns has no spare capacity, so both expressions
    panic when there are fewer than five tokens. *)
Definition slice_home_rest (tokens : list string)
  : res (list string * list string) :=
  if (length tokens <? 5)%nat
  then Panic "runtime error: slice bounds out of range"
  else Ret (firstn 5 tokens, skipn 5 tokens).

(** The loop of [getPathsTillHome] over [restTokens]: the paths appended
    after [previous]. *)
Fixpoint descend (previous : string) (restTokens : list string)
  : list string :=
  match restTokens with
  | [] => []
  | token :: rest =>
      let previous := path.Join [previous; path.Clean token] in
      previous :: descend previous rest
  end.

Definition getPathsTillHome (p : string) : res (list string) :=
  let tokens := strings.Split p "/" in
  match slice_home_rest tokens with
  | Panic msg => Panic msg
  | Ret (homeTokens, restTokens) =>
      let home := path.Clean ("/" ++ path.Join homeTokens) in
      Ret (home :: descend home restTokens)
  end.

(** [Where("path LIKE ?", p+"%")] of [getRecordsWithPathPrefix]. *)
Definition like_prefix (p : string) (rc : record) : bool :=
  sql.LIKE (Path rc) (p ++ "%").

(** [Where("path LIKE ? AND m_time < ?", p+"%", ts)] of [Rm]; [ts] is an
    [int64]. *)
Definition doomed (p : string) (ts : Z) (rc : record) : bool :=
  like_prefix p rc && (Z.of_N (MTime rc) <? ts)%Z.

(** [record{ETag: etag, MTime: mtime, Path: newPath}] of [Mv]. *)
Definition renamed (newPath etag : string) (mtime : N) : record :=
  mkRecord "" newPath "" etag mtime.

(** [Where("path=? AND m_time < ?", p, mtime)] of [update]. *)
Definition stale_at (p : string) (mtime : N) (rc : record) : bool :=
  (Path rc =? p) && (MTime rc <? mtime)%N.

(** [record{ETag: etag, MTime: mtime}] of [update]. *)
Definition fingerprint (etag : string) (mtime : N) : record :=
  mkRecord "" "" "" etag mtime.

Section Server.

(** [lib.ParseToken] of package [service.auth/lib]: the identity behind
    an access token, or a failure. *)
Variable ParseToken : string -> string -> option string.

(** The receiver [s]; its [db] field is the [rows] of the world. *)
Variable s_p : newServerParams.

Definition getRecordsWithPathPrefix (p : string)
  : M (list record * option error) :=
  '(recs, r) <- gorm.Find (like_prefix p) ;;
  match gorm.Error r with
  | Some err => log_Error err ;;; ret (recs, None)
  | None => ret (recs, None)
  end.

Definition getByPath (path : string) : M (record * option error) :=
  '(r, res) <- gorm.First (fun rc => Path rc =? path) ;;
  ret (r, gorm.Error res).

Definition insert (id p checksum etag : string) (mtime : N)
  : M (option error) :=
  r <- gorm.Exec_insert (mkRecord id p checksum etag mtime) ;;
  match gorm.Error r with
  | Some err => ret (Some err)
  | None => ret None
  end.

Definition update (p etag : string) (mtime : N) : M Z :=
  r <- gorm.Updates gorm.s_db (stale_at p mtime) (fingerprint etag mtime) ;;
  ret (gorm.RowsAffected r).

(** The loop of [propagateChanges]. *)
Fixpoint propagate_loop (paths : list string) (etag : string) (mtime : N)
  : M unit :=
  match paths with
  | [] => ret tt
  | p :: rest =>
      numRows <- update p etag mtime ;;
      (if (numRows =? 0)%Z
       then log_Warnf
              "parent path %s has not being updated with etag=%s and mtime=%s"
              [Astr p; Astr etag; Anum mtime]
       else ret tt) ;;;
      propagate_loop rest etag mtime
  end.

Definition propagateChanges (p etag : string) (mtime : N)
  (stopPath : string) : M (option error) :=
  paths <- lift (getPathsTillHome p) ;;
  propagate_loop paths etag mtime ;;;
  ret None.

(** The loop of [Mv] over [recs]; [Some err] when an update failed and
    the handler returned from inside the loop. *)
Fixpoint rename_loop (t : gorm.handle) (src dst etag : string) (mtime : N)
  (recs : list record) : M (option error) :=
  match recs with
  | [] => ret None
  | rec :: rest =>
      let newPath :=
        path.Join [dst; path.Clean (strings.Trim (Path rec) src)] in
      r <- gorm.Updates gorm.s_db (fun rc => ID rc =? ID rec)
             (renamed newPath etag mtime) ;;
      match gorm.Error r with
      | Some err =>
          log_Error err ;;;
          gorm.Rollback t ;;;
          ret (Some err)
      | None => rename_loop t src dst etag mtime rest
      end
  end.

(** [Mv]; [etag] is the value of [uuid.New()], [now] the value of
    [time.Now().Unix()]. *)
Definition Mv (req : MvReq) (etag : string) (now : Z) : M (option error) :=
  match ParseToken (Mv_AccessToken req) (sharedSecret s_p) with
  | None =>
      log_Error unauthenticatedError ;;;
      ret (Some unauthenticatedError)
  | Some idt =>
      let src := path.Clean (Src req) in
      let dst := path.Clean (Dst req) in
      '(recs, err) <- getRecordsWithPathPrefix src ;;
      match err with
      | Some _ => ret None
      | None =>
          let mtime := uint32 now in
          t <- gorm.Begin ;;
          failed <- rename_loop t src dst etag mtime recs ;;
          match failed with
          | Some err => ret (Some err)
          | None =>
              gorm.Commit t ;;;
              err <- propagateChanges dst etag mtime "" ;;
              match err with
              | Some e => log_Error e
              | None => ret tt
              end ;;;
              ret None
          end
      end
  end.

(** [Rm]; [now] is the value of [time.Now().Unix()], [etag] the value of
    [uuid.New()]. *)
Definition Rm (req : RmReq) (now : Z) (etag : string) : M (option error) :=
  match ParseToken (Rm_AccessToken req) (sharedSecret s_p) with
  | None =>
      log_Error unauthenticatedError ;;;
      ret (Some unauthenticatedError)
  | Some idt =>
      let p := path.Clean (Rm_Path req) in
      let ts := now in
      r <- gorm.Delete (doomed p ts) ;;
      match gorm.Error r with
      | Some err => log_Error err ;;; ret (Some err)
      | None =>
          err <- propagateChanges p etag (uint32 ts) "" ;;
          match err with
          | Some e => log_Error e
          | None => ret tt
          end ;;;
          ret None
      end
  end.

(** The second half of [Put], from the call of [insert] on, once [id]
    has been decided. *)
Definition Put_save (p checksum etag : string) (mtime : N) (id : string)
  : M (option error) :=
  err <- insert id p checksum etag mtime ;;
  match err with
  | Some e => log_Error e ;;; ret (Some e)
  | None =>
      err <- propagateChanges p etag mtime "" ;;
      match err with
      | Some e => log_Error e
      | None => ret tt
      end ;;;
      ret None
  end.

(** [Put]; [etag] and [newid] are the values of the two calls of
    [uuid.New()] (the second one is made only when the path has no
    record yet), [now] the value of [time.Now().Unix()]. *)
Definition Put (req : PutReq) (etag newid : string) (now : Z)
  : M (option error) :=
  match ParseToken (Put_AccessToken req) (sharedSecret s_p) with
  | None =>
      log_Error unauthenticatedError ;;;
      ret (Some unauthenticatedError)
  | Some idt =>
      let p := path.Clean (Put_Path req) in
      let mtime := uint32 now in
      '(r, err) <- getByPath p ;;
      match err with
      | Some e =>
          log_Error e ;;;
          if error_eqb e RecordNotFound
          then Put_save p (Put_Checksum req) etag mtime newid
          else ret (Some e)
      | None => Put_save p (Put_Checksum req) etag mtime (ID r)
      end
  end.

End Server.

(** The answer of [Get] ([pb.Record]). *)
Module pb.

Record Record_ : Type := mkRecord_ {
  Id : string;
  Path : string;
  Etag : string;
  Modified : N;
  Checksum : string
}.

End pb.

(** The request of [Get] ([pb.GetReq]). *)
Record GetReq : Type := mkGetReq {
  Get_AccessToken : string; Get_Path : string; ForceCreation : bool }.

(** [&pb.Record{}]. *)
Definition no_record : pb.Record_ := pb.mkRecord_ "" "" "" 0 "".

(** The last lines of [Get]: the stored record as the answer. *)
Definition answer_of (rec : record) : pb.Record_ :=
  pb.mkRecord_ (ID rec) (Path rec) (ETag rec) (MTime rec) (Checksum rec).

Section Server_Get.

Variable ParseToken : string -> string -> option string.
Variable s_p : newServerParams.

(** [Get]; [etag], [newid] and [now] are the values that the inner call of
    [Put] draws from [uuid.New()] and [time.Now().Unix()] when the record
    is created on the way. *)
Definition Get (req : GetReq) (etag newid : string) (now : Z)
  : M (pb.Record_ * option error) :=
  match ParseToken (Get_AccessToken req) (sharedSecret s_p) with
  | None =>
      log_Error unauthenticatedError ;;;
      ret (no_record, Some unauthenticatedError)
  | Some idt =>
      let p := path.Clean (Get_Path req) in
      '(rec, err) <- getByPath p ;;
      match err with
      | Some e =>
          log_Error e ;;;
          if negb (error_eqb e RecordNotFound) then ret (no_record, Some e)
          else if negb (ForceCreation req) then ret (no_record, Some e)
          else
            let i := mkPutReq (Get_AccessToken req) (Get_Path req) "" in
            e' <- Put ParseToken s_p i etag newid now ;;
            match e' with
            | Some _ => ret (no_record, Some e)
            | None =>
                '(rec, err) <- getByPath p ;;
                match err with
                | Some _ => ret (no_record, None)
                | None => ret (answer_of rec, None)
                end
            end
      | None => ret (answer_of rec, None)
      end
  end.

End Server_Get.

(** A token library that accepts every token: the identity is the token. *)
Definition any_token (token secret : string) : option string := Some token.

Definition params : newServerParams := mkParams "" "secret".

(* ------------------------------------------------------------------ *)
(** ** Sample data *)

(** A store with a home directory, a directory [docs] with two files, and
    a sibling directory [docs2] whose name only begins like [docs]. *)
Definition demo_rows : list record :=
  [ mkRecord "id-home" "/local/users/d/demo" "" "e0" 10;
    mkRecord "id-docs" "/local/users/d/demo/docs" "" "e1" 10;
    mkRecord "id-sales" "/local/users/d/demo/docs/sales.csv" "c2" "e2" 10;
    mkRecord "id-notes" "/local/users/d/demo/docs/notes.txt" "c3" "e3" 10;
    mkRecord "id-other" "/local/users/d/demo/docs2/x.txt" "c4" "e4" 10 ].

Definition world_of (rs : list record) (fs : list (option string)) : world :=
  mkWorld rs [] fs [].

(** No statement of the coming ones fails. *)
Definition fault_free (w : world) : Prop :=
  Forall (fun f => f = None) (faults w).

(** Every row stored at path [a] carries an mtime of at least [mtime]. *)
Definition not_older_at (a : string) (mtime : N) (rs : list record) : Prop :=
  forall r, In r rs -> Path r = a -> (mtime <= MTime r)%N.

(** How propagation with fingerprint [(etag, mtime)] along [paths] may
    change one row [r] into [r']: not at all, or, when the row sits on one
    of the paths with an older mtime, by giving it the fingerprint. *)
Definition touched (paths : list string) (etag : string) (mtime : N)
  (r r' : record) : Prop :=
  r' = r \/
  (In (Path r) paths /\ (MTime r < mtime)%N /\
   r' = gorm.assign (fingerprint etag mtime) r).

(** A path element as [path.Clean] leaves it in a rooted path: not empty,
    neither [.] nor [..], and free of slashes. *)
Definition plain (e : string) : bool :=
  negb (e =? "") && negb (e =? ".") && negb (e =? "..")
  && negb (strings.in_cutset "/" e).

(** The normalized absolute path with elements [es]. *)
Definition rooted_path (es : list string) : string :=
  "/" ++ strings.Join es "/".

(** What [getByPath] hands back on a table when its query executes. *)
Definition lookup (p : string) (rs : list record) : record * option error :=
  match find (fun rc => Path rc =? p) rs with
  | Some r => (r, None)
  | None => (mkRecord "" "" "" "" 0, Some RecordNotFound)
  end.

(** The id under which [Put] stores a path: the id of the record that the
    path has, a new one otherwise. *)
Definition put_id (p newid : string) (rs : list record) : string :=
  match find (fun rc => Path rc =? p) rs with
  | Some r => ID r
  | None => newid
  end.

(** The path that the loop of [Mv] computes for a record. *)
Definition new_path (src dst : string) (rec : record) : string :=
  path.Join [dst; path.Clean (strings.Trim (Path rec) src)].

(** A token library that rejects every token. *)
Definition no_token (token secret : string) : option string := None.

(** The statement that the loop of [Mv] issues for [rec], on one row. *)
Definition rename_step (src dst etag : string) (mtime : N) (x rec : record)
  : record :=
  if ID x =? ID rec
  then gorm.assign (renamed (new_path src dst rec) etag mtime) x
  else x.

(** The table after the statements that the loop of [Mv] issues for
    [recs], one after the other. *)
Definition rename_all (src dst etag : string) (mtime : N)
  (recs : list record) (rs : list record) : list record :=
  fold_left
    (fun rs rec =>
       gorm.update_where (fun rc => ID rc =? ID rec)
         (renamed (new_path src dst rec) etag mtime) rs)
    recs rs.



(* ------------------------------------------------------------------ *)
(** * Properties *)

Section Library_checks.

(** The embedded library functions on the cases of Go's own test tables
    ([path_test.go], [strings_test.go]). *)

Example Clean_table :
  map path.Clean
    [ ""; "abc"; "abc/def"; "a/b/c"; "."; ".."; "../.."; "../../abc";
      "/abc"; "/";
      "abc/"; "abc/def/"; "a/b/c/"; "./"; "../"; "../../"; "/abc/";
      "abc//def//ghi"; "//abc"; "///abc"; "//abc//"; "abc//";
      "abc/./def"; "/./abc/def"; "abc/.";
      "abc/def/ghi/../jkl"; "abc/def/../ghi/../jkl"; "abc/def/..";
      "abc/def/../.."; "/abc/def/../.."; "abc/def/../../..";
      "/abc/def/../../.."; "abc/def/../../../ghi/jkl/../../../mno";
      "abc/./../def"; "abc//./../def"; "abc/../../././../def" ]
  = [ "."; "abc"; "abc/def"; "a/b/c"; "."; ".."; "../.."; "../../abc";
      "/abc"; "/";
      "abc"; "abc/def"; "a/b/c"; "."; ".."; "../.."; "/abc";
      "abc/def/ghi"; "/abc"; "/abc"; "/abc"; "abc";
      "abc/def"; "/abc/def"; "abc";
      "abc/def/jkl"; "abc/jkl"; "abc";
      "."; "/"; "..";
      "/"; "../../mno";
      "def"; "def"; "../../def" ].
Proof. reflexivity. Qed.

Example Join_table :
  map path.Join
    [ []; [""]; ["a"]; ["a"; "b"]; ["a"; ""]; [""; "b"]; ["/"; "a"];
      ["/"; ""]; ["a/"; "b"]; ["a/"; ""]; [""; ""];
      [""; "local"; "users"]; ["/a/b"; "."] ]
  = [ ""; ""; "a"; "a/b"; "a"; "b"; "/a";
      "/"; "a/b"; "a"; "";
      "local/users"; "/a/b" ].
Proof. reflexivity. Qed.

Example Split_table :
  map (fun s => strings.Split s "/") [ ""; "/"; "abc"; "/a/b"; "/a/b/"; "a//b" ]
  = [ [""]; [""; ""]; ["abc"]; [""; "a"; "b"]; [""; "a"; "b"; ""];
      ["a"; ""; "b"] ].
Proof. reflexivity. Qed.

Example Trim_table :
  map (fun sc => strings.Trim (fst sc) (snd sc))
    [ ("abba", "a"); ("abba", "ab"); ("<tag>", "<>"); ("* listitem", " *");
      ("abc", ""); ("", "abc"); ("xxhixx", "x") ]
  = [ "bb"; ""; "tag"; "listitem"; "abc"; ""; "hi" ].
Proof. reflexivity. Qed.

Example TrimLeft_TrimRight_table :
  (strings.TrimLeft "abba" "a", strings.TrimRight "abba" "a",
   strings.TrimLeft "abba" "ab", strings.TrimRight "abba" "ab")
  = ("bba", "abb", "", "").
Proof. reflexivity. Qed.

Example LIKE_table :
  map (fun sp => sql.LIKE (fst sp) (snd sp))
    [ ("/a/bc", "/a/b%"); ("/a/b", "/a/b%"); ("/a/b/c", "/a/b%");
      ("/a/c", "/a/b%"); ("/a/b", "/a/_"); ("/a/", "/a/_");
      ("a_b", "a\_b"); ("axb", "a\_b"); ("50%", "50\%"); ("abc", "%b%") ]
  = [ true; true; true; false; true; false; true; false; true; true ].
Proof. reflexivity. Qed.

End Library_checks.

(** ** The store statements *)

Section Store_facts.

(** A statement that selects nothing changes nothing. *)
Lemma update_where_none sel vals rs :
  (forall r, In r rs -> sel r = false) ->
  gorm.update_where sel vals rs = rs.
Proof.
  unfold gorm.update_where.
  induction rs as [|r rs IH]; intros Hsel; [reflexivity|].
  cbn [map]. rewrite (Hsel r (or_introl eq_refl)).
  f_equal. apply IH. intros r' Hr'. apply Hsel. now right.
Qed.

Lemma count_where_none sel rs :
  (forall r, In r rs -> sel r = false) ->
  gorm.count_where sel rs = 0%Z.
Proof.
  unfold gorm.count_where.
  induction rs as [|r rs IH]; intros Hsel; [reflexivity|].
  cbn [filter]. rewrite (Hsel r (or_introl eq_refl)).
  apply IH. intros r' Hr'. apply Hsel. now right.
Qed.

(** The fingerprint leaves id, path and checksum of a row alone. *)
Lemma assign_fingerprint_keys etag mtime r :
  ID (gorm.assign (fingerprint etag mtime) r) = ID r /\
  Path (gorm.assign (fingerprint etag mtime) r) = Path r /\
  Checksum (gorm.assign (fingerprint etag mtime) r) = Checksum r.
Proof. now destruct r. Qed.

(** On a row that [update] selects, the new mtime is written. *)
Lemma assign_fingerprint_mtime etag mtime r :
  (MTime r < mtime)%N ->
  MTime (gorm.assign (fingerprint etag mtime) r) = mtime.
Proof.
  intros Hlt. destruct r as [i p c e m]. cbn in *.
  destruct (N.eqb_spec mtime 0) as [->|_]; [lia|reflexivity].
Qed.

Lemma stale_at_true p mtime r :
  stale_at p mtime r = true <-> Path r = p /\ (MTime r < mtime)%N.
Proof.
  unfold stale_at. rewrite andb_true_iff, String.eqb_eq, N.ltb_lt.
  reflexivity.
Qed.

End Store_facts.

(** ** Propagation *)

Section Propagation_facts.

Variables (etag : string) (mtime : N).

(** The three ways a call of [update] can go. *)
Lemma update_run p w :
  update p etag mtime w =
  match faults w with
  | Some msg :: fs => (Ret 0%Z, set_faults fs w)
  | None :: fs =>
      (Ret (gorm.count_where (stale_at p mtime) (rows w)),
       set_rows (gorm.update_where (stale_at p mtime)
                   (fingerprint etag mtime) (rows w))
                (set_faults fs w))
  | [] =>
      (Ret (gorm.count_where (stale_at p mtime) (rows w)),
       set_rows (gorm.update_where (stale_at p mtime)
                   (fingerprint etag mtime) (rows w)) w)
  end.
Proof.
  unfold update, gorm.Updates, bind, next_fault, ret.
  destruct (faults w) as [|[msg|] fs]; reflexivity.
Qed.

(** [update] returns, and the table it leaves is the old one or the old
    one with the statement applied. *)
Lemma update_rows p w :
  exists n w',
    update p etag mtime w = (Ret n, w') /\
    (rows w' = rows w \/
     rows w' = gorm.update_where (stale_at p mtime)
                 (fingerprint etag mtime) (rows w)).
Proof.
  rewrite update_run.
  destruct (faults w) as [|[msg|] fs]; eexists; eexists;
    (split; [reflexivity|]); cbn; auto.
Qed.

(** The loop of [propagateChanges] always returns, and keeps every
    property of the table that each single statement keeps. *)
Lemma propagate_loop_keeps (I : list record -> Prop) paths :
  (forall p rs, In p paths -> I rs ->
     I (gorm.update_where (stale_at p mtime) (fingerprint etag mtime) rs)) ->
  forall w, I (rows w) ->
  exists w', propagate_loop paths etag mtime w = (Ret tt, w') /\ I (rows w').
Proof.
  induction paths as [|p rest IH]; intros Hstep w HI.
  - exists w. split; [reflexivity|assumption].
  - cbn [propagate_loop]. unfold bind at 1.
    destruct (update_rows p w) as (n & w1 & -> & Hrows).
    assert (HI1 : I (rows w1)).
    { destruct Hrows as [-> | ->]; [assumption|].
      apply Hstep; [now left|assumption]. }
    unfold bind at 1.
    destruct (n =? 0)%Z; cbn [log_Warnf ret];
      apply IH; auto; intros q rs Hq; apply Hstep; now right.
Qed.

(** The statement of [update] never lowers the mtime stored at a path. *)
Lemma update_where_not_older a p rs :
  not_older_at a mtime rs ->
  not_older_at a mtime
    (gorm.update_where (stale_at p mtime) (fingerprint etag mtime) rs).
Proof.
  unfold not_older_at, gorm.update_where. intros H r' Hin Hp.
  apply in_map_iff in Hin. destruct Hin as (r & <- & Hin).
  destruct (stale_at p mtime r) eqn:Hs.
  - apply stale_at_true in Hs. destruct Hs as [_ Hlt].
    rewrite assign_fingerprint_mtime by assumption. lia.
  - apply H; assumption.
Qed.

(** After its statement has executed, no row at the path is older. *)
Lemma update_where_settles p rs :
  not_older_at p mtime
    (gorm.update_where (stale_at p mtime) (fingerprint etag mtime) rs).
Proof.
  unfold not_older_at, gorm.update_where. intros r' Hin Hp.
  apply in_map_iff in Hin. destruct Hin as (r & <- & Hin).
  destruct (stale_at p mtime r) eqn:Hs.
  - apply stale_at_true in Hs. destruct Hs as [_ Hlt].
    rewrite assign_fingerprint_mtime by assumption. lia.
  - destruct (N.ltb_spec (MTime r) mtime) as [Hlt|Hge]; [|assumption].
    exfalso. assert (stale_at p mtime r = true); [|congruence].
    apply stale_at_true. split; assumption.
Qed.

(** When the store executes every statement, propagation leaves no row
    on any of the paths older than the fingerprint. *)
Lemma propagate_loop_settles paths :
  forall w w', fault_free w ->
  propagate_loop paths etag mtime w = (Ret tt, w') ->
  fault_free w' /\
  forall a, In a paths -> not_older_at a mtime (rows w').
Proof.
  induction paths as [|p rest IH]; intros w w' Hff Hrun.
  - inversion Hrun; subst. split; [assumption|]. intros a [].
  - cbn [propagate_loop] in Hrun. unfold bind at 1 in Hrun.
    rewrite update_run in Hrun.
    set (rs1 := gorm.update_where (stale_at p mtime)
                  (fingerprint etag mtime) (rows w)) in *.
    assert (Hgo : exists w1, fault_free w1 /\ rows w1 = rs1 /\
                    propagate_loop rest etag mtime w1 = (Ret tt, w')).
    { unfold fault_free in Hff.
      destruct (faults w) as [|[msg|] fs] eqn:Hf.
      - unfold bind at 1 in Hrun.
        destruct (_ =? 0)%Z; cbn [log_Warnf ret] in Hrun;
          eexists; (split; [|split; [|exact Hrun]]);
          try reflexivity; unfold fault_free; cbn; rewrite Hf; constructor.
      - inversion Hff; discriminate.
      - unfold bind at 1 in Hrun. inversion Hff; subst.
        destruct (_ =? 0)%Z; cbn [log_Warnf ret] in Hrun;
          eexists; (split; [|split; [|exact Hrun]]);
          try reflexivity; unfold fault_free; cbn; assumption. }
    destruct Hgo as (w1 & Hff1 & Hrows1 & Hrest).
    destruct (IH w1 w' Hff1 Hrest) as [Hff' Hsettled].
    split; [assumption|]. intros a [<-|Hin]; [|now apply Hsettled].
    destruct (propagate_loop_keeps (not_older_at p mtime) rest) with (w := w1)
      as (w2 & Hrun2 & Hkept).
    + intros q rs _. apply update_where_not_older.
    + rewrite Hrows1. apply update_where_settles.
    + rewrite Hrest in Hrun2. inversion Hrun2; subst. assumption.
Qed.

End Propagation_facts.

Section Touched_facts.

Variables (paths : list string) (etag : string) (mtime : N).

Lemma touched_refl r : touched paths etag mtime r r.
Proof. now left. Qed.

(** A touched row keeps its id, its path and its checksum. *)
Lemma touched_keys r r' :
  touched paths etag mtime r r' ->
  ID r' = ID r /\ Path r' = Path r /\ Checksum r' = Checksum r.
Proof.
  intros [-> | (_ & _ & ->)]; [auto|]. apply assign_fingerprint_keys.
Qed.

(** One more statement of [update], on one of the paths, keeps each row
    within [touched] of where it started. *)
Lemma touched_step p r0 r :
  In p paths ->
  touched paths etag mtime r0 r ->
  touched paths etag mtime r0
    (if stale_at p mtime r then gorm.assign (fingerprint etag mtime) r else r).
Proof.
  intros Hp Ht. destruct (stale_at p mtime r) eqn:Hs; [|assumption].
  apply stale_at_true in Hs. destruct Hs as [Hpath Hlt].
  destruct Ht as [-> | (_ & Hlt0 & ->)].
  - right. rewrite Hpath. auto.
  - rewrite assign_fingerprint_mtime in Hlt by assumption. lia.
Qed.

Lemma touched_update_where p rs0 rs :
  In p paths ->
  Forall2 (touched paths etag mtime) rs0 rs ->
  Forall2 (touched paths etag mtime) rs0
    (gorm.update_where (stale_at p mtime) (fingerprint etag mtime) rs).
Proof.
  intros Hp H. unfold gorm.update_where.
  induction H as [|r0 r rs0 rs Ht _ IH]; cbn [map]; constructor;
    [now apply touched_step | exact IH].
Qed.

Lemma touched_all_refl rs : Forall2 (touched paths etag mtime) rs rs.
Proof. induction rs; constructor; [apply touched_refl | assumption]. Qed.

Lemma touched_all_keys rs rs' :
  Forall2 (touched paths etag mtime) rs rs' ->
  map ID rs' = map ID rs /\ map Path rs' = map Path rs /\
  map Checksum rs' = map Checksum rs.
Proof.
  induction 1 as [|r r' rs rs' Ht _ (IHi & IHp & IHc)]; [auto|].
  destruct (touched_keys _ _ Ht) as (Hi & Hp & Hc).
  cbn [map]. rewrite Hi, Hp, Hc, IHi, IHp, IHc. auto.
Qed.

(** Propagation along [paths] returns and leaves every row within
    [touched] of where it was, whatever the store answers. *)
Lemma propagate_loop_touches w :
  exists w',
    propagate_loop paths etag mtime w = (Ret tt, w') /\
    Forall2 (touched paths etag mtime) (rows w) (rows w').
Proof.
  apply (propagate_loop_keeps etag mtime
           (fun rs => Forall2 (touched paths etag mtime) (rows w) rs)).
  - intros p rs Hp H. now apply touched_update_where.
  - apply touched_all_refl.
Qed.

End Touched_facts.

(** ** The resolver *)

Section Resolver_facts.

Lemma getPathsTillHome_deep p :
  (5 <= length (strings.Split p "/"))%nat ->
  exists paths, getPathsTillHome p = Ret paths.
Proof.
  intros H. unfold getPathsTillHome, slice_home_rest.
  destruct (Nat.ltb_spec (length (strings.Split p "/")) 5) as [Hlt|_];
    [lia|]. eexists; reflexivity.
Qed.

(** [propagateChanges] on a path of five tokens or more: it returns
    [nil], and the table changes as [touched] allows. *)
Lemma propagateChanges_deep p etag mtime stop paths w :
  getPathsTillHome p = Ret paths ->
  exists w',
    propagateChanges p etag mtime stop w = (Ret None, w') /\
    Forall2 (touched paths etag mtime) (rows w) (rows w').
Proof.
  intros Hp. unfold propagateChanges, bind, lift. rewrite Hp.
  destruct (propagate_loop_touches paths etag mtime w) as (w' & -> & Ht).
  exists w'. split; [reflexivity|assumption].
Qed.

(** [propagateChanges] on a path of fewer than five tokens panics, before
    any statement is issued. *)
Lemma propagateChanges_shallow p etag mtime stop msg w :
  getPathsTillHome p = Panic msg ->
  propagateChanges p etag mtime stop w = (Panic msg, w).
Proof.
  intros Hp. unfold propagateChanges, bind, lift. now rewrite Hp.
Qed.

End Resolver_facts.

(** ** The handlers *)

Section Handler_facts.

Variable ParseToken : string -> string -> option string.
Variable s_p : newServerParams.

(** The three ways the prefix lookup can go; the error is [nil] in each
    of them. *)
Lemma getRecordsWithPathPrefix_run p w :
  getRecordsWithPathPrefix p w =
  match faults w with
  | Some msg :: fs =>
      (Ret ([], None), add_log (LogError (driverError msg)) (set_faults fs w))
  | None :: fs =>
      (Ret (filter (like_prefix p) (rows w), None),
       set_faults fs w)
  | [] =>
      (Ret (filter (like_prefix p) (rows w), None),
       w)
  end.
Proof.
  unfold getRecordsWithPathPrefix, gorm.Find, bind, next_fault, ret.
  destruct (faults w) as [|[msg|] fs]; reflexivity.
Qed.

(** [Mv] when the lookup hands back no record. *)
Lemma Mv_empty_batch req etag now idt paths w w1 :
  ParseToken (Mv_AccessToken req) (sharedSecret s_p) = Some idt ->
  getRecordsWithPathPrefix (path.Clean (Src req)) w = (Ret ([], None), w1) ->
  getPathsTillHome (path.Clean (Dst req)) = Ret paths ->
  exists w',
    Mv ParseToken s_p req etag now w = (Ret None, w') /\
    Forall2 (touched paths etag (uint32 now)) (rows w1) (rows w').
Proof.
  intros Hauth Hlook Hpaths. unfold Mv. rewrite Hauth.
  unfold bind at 1. rewrite Hlook.
  unfold bind at 1. unfold gorm.Begin.
  unfold bind at 1. cbn [rename_loop ret].
  unfold bind at 1. unfold gorm.Commit at 1. cbn [pending set_pending fold_left].
  match goal with
  | |- context [propagateChanges ?p ?e ?m ?s] =>
      match goal with
      | |- context [bind (propagateChanges p e m s) ?k ?w0] =>
          destruct (propagateChanges_deep p e m s paths w0 Hpaths)
            as (w' & Hprop & Ht)
      end
  end.
  unfold bind at 1. rewrite Hprop. unfold bind, ret.
  exists w'. split; [reflexivity|exact Ht].
Qed.

(** The second half of [Put] on a path of five tokens or more returns
    [nil] as soon as the insert statement executes, whatever the store
    answers to the statements of the propagation. *)
Lemma Put_save_deep p checksum etag mtime id paths w :
  hd None (faults w) = None ->
  getPathsTillHome p = Ret paths ->
  exists w',
    Put_save p checksum etag mtime id w = (Ret None, w') /\
    Forall2 (touched paths etag mtime)
      (gorm.upsert (mkRecord id p checksum etag mtime) (rows w)) (rows w').
Proof.
  intros Hf Hpaths.
  unfold Put_save, insert, gorm.Exec_insert.
  assert (Hins : exists w1,
    (f <- next_fault ;;
     match f with
     | Some msg => ret (gorm.mkResult (Some (driverError msg)) 0)
     | None => fun w0 =>
         (Ret (gorm.mkResult None 1),
          set_rows (gorm.upsert (mkRecord id p checksum etag mtime) (rows w0))
                   w0)
     end) w = (Ret (gorm.mkResult None 1), w1) /\
    rows w1 = gorm.upsert (mkRecord id p checksum etag mtime) (rows w)).
  { unfold bind, next_fault.
    destruct (faults w) as [|f fs]; cbn in Hf; subst;
      eexists; split; reflexivity. }
  destruct Hins as (w1 & Hins & Hrows).
  unfold bind at 1. unfold bind at 1. rewrite Hins. cbn [gorm.Error ret].
  destruct (propagateChanges_deep p etag mtime "" paths w1 Hpaths)
    as (w' & Hprop & Ht).
  unfold bind at 1. rewrite Hprop. unfold bind, ret.
  exists w'. split; [reflexivity|]. rewrite <- Hrows. exact Ht.
Qed.

(** The second half of [Put] on a path of fewer than five tokens: the row
    is written, then the goroutine panics. *)
Lemma Put_save_shallow p checksum etag mtime id msg w :
  hd None (faults w) = None ->
  getPathsTillHome p = Panic msg ->
  exists w',
    Put_save p checksum etag mtime id w = (Panic msg, w') /\
    rows w' = gorm.upsert (mkRecord id p checksum etag mtime) (rows w).
Proof.
  intros Hf Hpaths.
  unfold Put_save, insert, gorm.Exec_insert.
  unfold bind at 1. unfold bind at 1. unfold bind at 1. unfold next_fault.
  destruct (faults w) as [|f fs]; cbn in Hf; subst; cbn [gorm.Error ret];
    unfold bind at 1; rewrite propagateChanges_shallow with (msg := msg)
      by assumption;
    eexists; split; reflexivity.
Qed.

End Handler_facts.

Section Fault_free_runs.

Variable ParseToken : string -> string -> option string.
Variable s_p : newServerParams.

Lemma fault_free_next w :
  fault_free w ->
  exists w1, next_fault w = (Ret None, w1) /\
             rows w1 = rows w /\ fault_free w1.
Proof.
  unfold fault_free, next_fault. intros H.
  destruct (faults w) as [|f fs] eqn:Hf.
  - exists w. rewrite Hf. auto.
  - inversion H; subst. exists (set_faults fs w). auto.
Qed.

Lemma fault_free_insert id p checksum etag mtime w :
  fault_free w ->
  exists w1,
    insert id p checksum etag mtime w = (Ret None, w1) /\
    rows w1 = gorm.upsert (mkRecord id p checksum etag mtime) (rows w) /\
    fault_free w1.
Proof.
  intros H. destruct (fault_free_next w H) as (w0 & Hn & Hr & Hff).
  unfold insert, gorm.Exec_insert. unfold bind at 1. unfold bind at 1.
  rewrite Hn. cbn [gorm.Error ret].
  eexists. split; [reflexivity|]. cbn. rewrite Hr. auto.
Qed.

Lemma fault_free_getByPath p w :
  fault_free w ->
  exists r err w1,
    getByPath p w = (Ret (r, err), w1) /\
    (err = None \/ err = Some RecordNotFound) /\
    rows w1 = rows w /\ fault_free w1.
Proof.
  intros H. destruct (fault_free_next w H) as (w0 & Hn & Hr & Hff).
  unfold getByPath, gorm.First. unfold bind at 1. unfold bind at 1.
  rewrite Hn.
  destruct (find (fun rc => Path rc =? p) (rows w0));
    cbn [ret gorm.Error]; do 3 eexists; (split; [reflexivity|]); auto.
Qed.

(** The second half of [Put], when the store executes every statement. *)
Lemma Put_save_settles p checksum etag mtime id paths w :
  fault_free w ->
  getPathsTillHome p = Ret paths ->
  exists w',
    Put_save p checksum etag mtime id w = (Ret None, w') /\
    fault_free w' /\
    forall a, In a paths -> not_older_at a mtime (rows w').
Proof.
  intros Hff Hpaths.
  destruct (fault_free_insert id p checksum etag mtime w Hff)
    as (w1 & Hins & _ & Hff1).
  unfold Put_save. unfold bind at 1. rewrite Hins.
  unfold propagateChanges, lift. rewrite Hpaths.
  destruct (propagate_loop_touches paths etag mtime w1) as (w2 & Hloop & _).
  destruct (propagate_loop_settles etag mtime paths w1 w2 Hff1 Hloop)
    as [Hff2 Hsettled].
  unfold bind. rewrite Hloop. cbn [ret].
  exists w2. auto.
Qed.

(** [Put], when the store executes every statement and the path has five
    tokens or more. *)
Lemma Put_settles req etag newid now idt paths w :
  ParseToken (Put_AccessToken req) (sharedSecret s_p) = Some idt ->
  fault_free w ->
  getPathsTillHome (path.Clean (Put_Path req)) = Ret paths ->
  exists w',
    Put ParseToken s_p req etag newid now w = (Ret None, w') /\
    forall a, In a paths -> not_older_at a (uint32 now) (rows w').
Proof.
  intros Hauth Hff Hpaths. unfold Put. rewrite Hauth.
  destruct (fault_free_getByPath (path.Clean (Put_Path req)) w Hff)
    as (r & err & w1 & Hget & Herr & _ & Hff1).
  unfold bind at 1. rewrite Hget.
  destruct Herr as [-> | ->].
  - destruct (Put_save_settles (path.Clean (Put_Path req)) (Put_Checksum req)
                etag (uint32 now) (ID r) paths w1 Hff1 Hpaths)
      as (w' & Hsave & _ & Hs).
    exists w'. auto.
  - unfold bind at 1. cbn [log_Error error_eqb].
    match goal with
    | |- context [Put_save ?p ?c ?e ?m ?i ?w0] =>
        destruct (Put_save_settles p c e m i paths w0) as (w' & Hsave & _ & Hs);
          [exact Hff1 | exact Hpaths |]
    end.
    exists w'. auto.
Qed.

End Fault_free_runs.

Section Masked_failures.

Variable ParseToken : string -> string -> option string.
Variable s_p : newServerParams.

(** [getByPath] when the store executes its query. *)
Lemma getByPath_executes p w :
  hd None (faults w) = None ->
  exists r err w1,
    getByPath p w = (Ret (r, err), w1) /\
    (err = None \/ err = Some RecordNotFound) /\
    rows w1 = rows w /\ faults w1 = tl (faults w) /\
    (logs w1 = logs w).
Proof.
  intros Hf. unfold getByPath, gorm.First, bind, next_fault, ret.
  destruct (faults w) as [|f fs] eqn:Hfs; cbn in Hf; subst;
    [ destruct (find (fun rc => Path rc =? p) (rows w))
    | destruct (find (fun rc => Path rc =? p) (rows (set_faults fs w))) ];
    cbn [gorm.Error]; do 3 eexists; (split; [reflexivity|]);
    cbn; rewrite ?Hfs; auto.
Qed.

(** On a path of five tokens or more, [Put] returns [nil] as soon as its
    lookup and its insert execute: nothing the store answers to the
    statements of the propagation reaches the caller. *)
Lemma Put_deep_returns_nil req etag newid now idt paths w :
  ParseToken (Put_AccessToken req) (sharedSecret s_p) = Some idt ->
  hd None (faults w) = None ->
  hd None (tl (faults w)) = None ->
  getPathsTillHome (path.Clean (Put_Path req)) = Ret paths ->
  exists w', Put ParseToken s_p req etag newid now w = (Ret None, w').
Proof.
  intros Hauth Hf1 Hf2 Hpaths. unfold Put. rewrite Hauth.
  destruct (getByPath_executes (path.Clean (Put_Path req)) w Hf1)
    as (r & err & w1 & Hget & Herr & _ & Hfs & _).
  unfold bind at 1. rewrite Hget. rewrite <- Hfs in Hf2.
  destruct Herr as [-> | ->].
  - destruct (Put_save_deep (path.Clean (Put_Path req)) (Put_Checksum req)
                etag (uint32 now) (ID r) paths w1 Hf2 Hpaths)
      as (w' & Hsave & _).
    exists w'. exact Hsave.
  - unfold bind at 1. cbn [log_Error error_eqb].
    match goal with
    | |- context [Put_save ?p ?c ?e ?m ?i ?w0] =>
        destruct (Put_save_deep p c e m i paths w0) as (w' & Hsave & _);
          [exact Hf2 | exact Hpaths |]
    end.
    exists w'. exact Hsave.
Qed.

(** On a path of fewer than five tokens, [Put] panics once its lookup and
    its insert have executed: the record is written and the call does not
    return. *)
Lemma Put_shallow_panics req etag newid now idt msg w :
  ParseToken (Put_AccessToken req) (sharedSecret s_p) = Some idt ->
  hd None (faults w) = None ->
  hd None (tl (faults w)) = None ->
  getPathsTillHome (path.Clean (Put_Path req)) = Panic msg ->
  exists w', Put ParseToken s_p req etag newid now w = (Panic msg, w').
Proof.
  intros Hauth Hf1 Hf2 Hpaths. unfold Put. rewrite Hauth.
  destruct (getByPath_executes (path.Clean (Put_Path req)) w Hf1)
    as (r & err & w1 & Hget & Herr & _ & Hfs & _).
  unfold bind at 1. rewrite Hget. rewrite <- Hfs in Hf2.
  destruct Herr as [-> | ->].
  - destruct (Put_save_shallow (path.Clean (Put_Path req)) (Put_Checksum req)
                etag (uint32 now) (ID r) msg w1 Hf2 Hpaths)
      as (w' & Hsave & _).
    exists w'. exact Hsave.
  - unfold bind at 1. cbn [log_Error error_eqb].
    match goal with
    | |- context [Put_save ?p ?c ?e ?m ?i ?w0] =>
        destruct (Put_save_shallow p c e m i msg w0) as (w' & Hsave & _);
          [exact Hf2 | exact Hpaths |]
    end.
    exists w'. exact Hsave.
Qed.

(** On a destination of five tokens or more, a failed prefix lookup is
    invisible to the caller of [Mv]: the call returns [nil] and the table
    changes as after a lookup that matched nothing. *)
Lemma Mv_masks_lookup_failure req etag now idt paths msg fs w :
  ParseToken (Mv_AccessToken req) (sharedSecret s_p) = Some idt ->
  faults w = Some msg :: fs ->
  getPathsTillHome (path.Clean (Dst req)) = Ret paths ->
  exists w',
    Mv ParseToken s_p req etag now w = (Ret None, w') /\
    Forall2 (touched paths etag (uint32 now)) (rows w) (rows w').
Proof.
  intros Hauth Hf Hpaths.
  eapply Mv_empty_batch with (w1 := add_log (LogError (driverError msg))
                                      (set_faults fs w)); eauto.
  rewrite getRecordsWithPathPrefix_run, Hf. reflexivity.
Qed.

End Masked_failures.

(** ** The resolver on normalized paths *)

Section Normalized_paths.

Lemma append_assoc (a b c : string) : (a ++ b) ++ c = a ++ (b ++ c).
Proof. induction a as [|x a IH]; cbn; [reflexivity|now rewrite IH]. Qed.

Lemma plain_spec e :
  plain e = true ->
  e <> "" /\ e <> "." /\ e <> ".." /\ strings.in_cutset "/" e = false.
Proof.
  unfold plain. rewrite !andb_true_iff, !negb_true_iff, !String.eqb_neq.
  tauto.
Qed.

(** A token without a slash is one token. *)
Lemma Split_no_slash e :
  strings.in_cutset "/" e = false -> strings.Split e "/" = [e].
Proof.
  induction e as [|c e IH]; intros H; [reflexivity|].
  cbn [strings.in_cutset] in H. apply orb_false_iff in H. destruct H as [Hc He].
  cbn [strings.Split]. rewrite Ascii.eqb_sym, Hc, (IH He). reflexivity.
Qed.

Lemma Split_cons e s :
  strings.in_cutset "/" e = false ->
  strings.Split (e ++ String "/" s) "/" = e :: strings.Split s "/".
Proof.
  induction e as [|c e IH]; intros H.
  - reflexivity.
  - cbn [strings.in_cutset] in H. apply orb_false_iff in H.
    destruct H as [Hc He].
    cbn [append strings.Split]. rewrite Ascii.eqb_sym, Hc, (IH He). reflexivity.
Qed.

Lemma Join_cons e e' es :
  strings.Join (e :: e' :: es) "/" = e ++ String "/" (strings.Join (e' :: es) "/").
Proof. reflexivity. Qed.

Lemma Split_Join es :
  es <> [] -> Forall (fun e => plain e = true) es ->
  strings.Split (strings.Join es "/") "/" = es.
Proof.
  induction es as [|e es IH]; [congruence|]. intros _ Hall.
  inversion Hall as [|? ? He Hes]; subst.
  destruct (plain_spec e He) as (_ & _ & _ & Hs).
  destruct es as [|e' es].
  - apply Split_no_slash, Hs.
  - rewrite Join_cons, Split_cons by assumption. f_equal.
    apply IH; [discriminate|assumption].
Qed.

Lemma clean_step_plain b out e :
  plain e = true -> path.clean_step b out e = e :: out.
Proof.
  intros H. destruct (plain_spec e H) as (H1 & H2 & H3 & _).
  unfold path.clean_step.
  apply String.eqb_neq in H1, H2, H3. now rewrite H1, H2, H3.
Qed.

Lemma fold_clean_plain b es out :
  Forall (fun e => plain e = true) es ->
  fold_left (path.clean_step b) es out = (rev es ++ out)%list.
Proof.
  revert out. induction es as [|e es IH]; intros out Hall; [reflexivity|].
  inversion Hall; subst. cbn [fold_left rev].
  rewrite clean_step_plain by assumption. rewrite IH by assumption.
  now rewrite <- app_assoc.
Qed.

(** [path.Clean] leaves a rooted path of plain elements as it is. *)
Lemma Clean_rooted_path es :
  Forall (fun e => plain e = true) es ->
  path.Clean (rooted_path es) = rooted_path es.
Proof.
  intros Hall. unfold path.Clean, rooted_path.
  cbn [append String.eqb path.rooted Ascii.eqb Bool.eqb strings.Split].
  cbn [fold_left]. unfold path.clean_step at 2. cbn [String.eqb orb].
  destruct es as [|e es].
  - reflexivity.
  - rewrite Split_Join by (assumption || discriminate).
    rewrite fold_clean_plain by assumption.
    unfold path.render. now rewrite app_nil_r, rev_involutive.
Qed.

Lemma rooted_plain_head e es :
  plain e = true -> path.rooted (strings.Join (e :: es) "/") = false.
Proof.
  intros H. destruct (plain_spec e H) as (Hne & _ & _ & Hs).
  destruct e as [|c e]; [congruence|].
  cbn [strings.in_cutset] in Hs. apply orb_false_iff in Hs. destruct Hs as [Hc _].
  rewrite Ascii.eqb_sym in Hc.
  destruct es; cbn; exact Hc.
Qed.

Lemma Join_not_empty e es :
  e <> "" -> strings.Join (e :: es) "/" <> "".
Proof.
  intros H. destruct e as [|c e]; [congruence|]. destruct es; discriminate.
Qed.

(** [path.Clean] leaves an unrooted path of plain elements as it is. *)
Lemma Clean_relative_path es :
  es <> [] -> Forall (fun e => plain e = true) es ->
  path.Clean (strings.Join es "/") = strings.Join es "/".
Proof.
  intros Hne Hall. destruct es as [|e es]; [congruence|].
  inversion Hall as [|? ? He Hes]; subst.
  destruct (plain_spec e He) as (Hnonempty & _).
  unfold path.Clean.
  destruct (String.eqb_spec (strings.Join (e :: es) "/") "") as [Heq|_];
    [now apply Join_not_empty in Heq|].
  rewrite rooted_plain_head by assumption.
  rewrite Split_Join by assumption.
  rewrite fold_clean_plain by assumption. rewrite app_nil_r.
  unfold path.render. rewrite rev_involutive.
  destruct (rev (e :: es)) eqn:Hrev; [|reflexivity].
  apply (f_equal (@List.length string)) in Hrev.
  rewrite length_rev in Hrev. discriminate.
Qed.

Lemma Clean_plain e : plain e = true -> path.Clean e = e.
Proof.
  intros H. apply (Clean_relative_path [e]); [discriminate|].
  constructor; [assumption|constructor].
Qed.

Lemma Join_snoc es e :
  es <> [] ->
  strings.Join (es ++ [e]) "/" = strings.Join es "/" ++ String "/" e.
Proof.
  induction es as [|x es IH]; [congruence|]. intros _.
  destruct es as [|y es]; [reflexivity|].
  change (strings.Join ((x :: y :: es) ++ [e]) "/")
    with (x ++ String "/" (strings.Join ((y :: es) ++ [e]) "/")).
  rewrite IH by discriminate. rewrite Join_cons.
  now rewrite append_assoc.
Qed.

(** One step of the loop of [getPathsTillHome] on a normalized path. *)
Lemma Join_rooted_step es e :
  es <> [] -> Forall (fun x => plain x = true) es -> plain e = true ->
  path.Join [rooted_path es; path.Clean e] = rooted_path (es ++ [e]).
Proof.
  intros Hne Hall He. rewrite Clean_plain by assumption.
  cbn [path.Join]. unfold rooted_path at 1. cbn [append String.eqb].
  change (strings.Join [rooted_path es; e] "/")
    with (rooted_path es ++ String "/" e).
  replace (rooted_path es ++ String "/" e) with (rooted_path (es ++ [e])).
  - apply Clean_rooted_path. apply Forall_app. split; [assumption|].
    constructor; [assumption|constructor].
  - unfold rooted_path. rewrite Join_snoc by assumption.
    now rewrite append_assoc.
Qed.

Lemma descend_rooted rest : forall h,
  h <> [] -> Forall (fun x => plain x = true) h ->
  Forall (fun x => plain x = true) rest ->
  descend (rooted_path h) rest =
  map (fun k => rooted_path (h ++ firstn k rest)) (seq 1 (length rest)).
Proof.
  induction rest as [|e rest IH]; intros h Hne Hh Hrest; [reflexivity|].
  inversion Hrest as [|? ? He Hrest']; subst.
  cbn [descend length seq map firstn].
  rewrite Join_rooted_step by assumption. f_equal.
  rewrite IH; [| now destruct h | apply Forall_app; split; auto | assumption].
  rewrite <- (seq_shift (length rest) 1), map_map. apply map_ext. intros k.
  cbn [firstn]. now rewrite <- app_assoc.
Qed.

Lemma seq_add a b n : seq (a + b) n = map (Nat.add a) (seq b n).
Proof.
  revert b. induction n as [|n IH]; intros b; [reflexivity|].
  cbn [seq map]. f_equal. rewrite <- IH. f_equal. lia.
Qed.

(** The resolver on a normalized absolute path: the rooted path of plain
    elements [es], at least four of them (five tokens with the empty one
    before the first slash).  The list runs from the path of the first four
    elements, one element more at each step, to the path itself. *)
Lemma getPathsTillHome_normalized es :
  Forall (fun e => plain e = true) es ->
  (4 <= length es)%nat ->
  getPathsTillHome (rooted_path es) =
  Ret (map (fun k => rooted_path (firstn k es)) (seq 4 (length es - 3))).
Proof.
  intros Hall Hlen.
  destruct es as [|e1 [|e2 [|e3 [|e4 rest]]]]; cbn [length] in Hlen; try lia.
  unfold getPathsTillHome.
  assert (Htok : strings.Split (rooted_path (e1 :: e2 :: e3 :: e4 :: rest)) "/"
                 = "" :: e1 :: e2 :: e3 :: e4 :: rest).
  { unfold rooted_path. cbn [append strings.Split Ascii.eqb Bool.eqb].
    f_equal. apply Split_Join; [discriminate|assumption]. }
  rewrite Htok. cbn [slice_home_rest length Nat.ltb Nat.leb firstn skipn].
  assert (Hhome : Forall (fun e => plain e = true) [e1; e2; e3; e4]).
  { repeat match goal with
           | H : Forall _ (_ :: _) |- _ => inversion H; clear H; subst
           end. repeat constructor; assumption. }
  assert (Hrest : Forall (fun e => plain e = true) rest).
  { repeat match goal with
           | H : Forall _ (_ :: _) |- _ => inversion H; clear H; subst
           end. assumption. }
  assert (He1 : e1 <> "") by (inversion Hhome; subst; now apply plain_spec).
  cbn [path.Join String.eqb].
  apply String.eqb_neq in He1. rewrite He1.
  rewrite (Clean_relative_path [e1; e2; e3; e4]) by (assumption || discriminate).
  change ("/" ++ strings.Join [e1; e2; e3; e4] "/")
    with (rooted_path [e1; e2; e3; e4]).
  rewrite Clean_rooted_path by assumption.
  rewrite descend_rooted by (assumption || discriminate).
  f_equal.
  replace (S (S (S (S (length rest)))) - 3)%nat
    with (S (length rest)) by lia.
  cbn [seq map firstn]. f_equal.
  change (seq 5 (length rest)) with (seq (4 + 1) (length rest)).
  rewrite (seq_add 4 1 (length rest)), map_map.
  apply map_ext. intros k. reflexivity.
Qed.
(** On such a path the list starts at the home directory and ends with
    the path itself, not with its parent. *)
Lemma getPathsTillHome_normalized_ends es :
  Forall (fun e => plain e = true) es ->
  (4 <= length es)%nat ->
  exists paths,
    getPathsTillHome (rooted_path es) = Ret paths /\
    hd "" paths = rooted_path (firstn 4 es) /\
    last paths "" = rooted_path es /\
    length paths = (length es - 3)%nat.
Proof.
  intros Hall Hlen. eexists. split; [now apply getPathsTillHome_normalized|].
  replace (length es - 3)%nat with (S (length es - 4)) by lia.
  repeat split.
  - rewrite seq_S, map_app. cbn [map]. rewrite last_last.
    replace (4 + (length es - 4))%nat with (length es) by lia.
    now rewrite firstn_all.
  - now rewrite length_map, length_seq.
Qed.

End Normalized_paths.


(** ** [Rm] and [Mv] on whole batches *)

Section Subtree_calls.

Variable ParseToken : string -> string -> option string.
Variable s_p : newServerParams.

(** What [Rm] does on a path of five tokens or more when the store executes
    the delete: the rows whose path matches [p%] and whose mtime is below
    the time of the call are gone, whether under [p] or merely beginning
    like it; the rows left change as the propagation from [p] allows. *)
Lemma Rm_effect req now etag idt w :
  ParseToken (Rm_AccessToken req) (sharedSecret s_p) = Some idt ->
  hd None (faults w) = None ->
  (5 <= length (strings.Split (path.Clean (Rm_Path req)) "/"))%nat ->
  exists paths w',
    getPathsTillHome (path.Clean (Rm_Path req)) = Ret paths /\
    Rm ParseToken s_p req now etag w = (Ret None, w') /\
    Forall2 (touched paths etag (uint32 now))
      (filter (fun rc => negb (doomed (path.Clean (Rm_Path req)) now rc))
              (rows w))
      (rows w').
Proof.
  intros Hauth Hf Hdeep.
  destruct (getPathsTillHome_deep _ Hdeep) as (paths & Hpaths).
  exists paths. unfold Rm. rewrite Hauth.
  unfold gorm.Delete. unfold bind at 1. unfold bind at 1. unfold next_fault.
  destruct (faults w) as [|f fs] eqn:Hfs; cbn in Hf; subst; cbn [gorm.Error];
    match goal with
    | |- context [bind (propagateChanges ?p ?e ?m ?s) ?k ?w0] =>
        destruct (propagateChanges_deep p e m s paths w0 Hpaths)
          as (w' & Hprop & Ht)
    end;
    unfold bind at 1; rewrite Hprop; unfold bind, ret;
    exists w'; (split; [assumption|]); (split; [reflexivity|]); exact Ht.
Qed.

Lemma uint32_le now : (0 <= now)%Z -> (Z.of_N (uint32 now) <= now)%Z.
Proof.
  intros H. unfold uint32. rewrite Z2N.id by (apply Z.mod_pos_bound; lia).
  apply Z.mod_le; lia.
Qed.

Lemma Forall2_In_l {A B} (R : A -> B -> Prop) l l' x :
  Forall2 R l l' -> In x l -> exists y, In y l' /\ R x y.
Proof.
  induction 1 as [|a b l l' Hab _ IH]; intros Hin; [contradiction|].
  destruct Hin as [<-|Hin].
  - exists b. split; [now left|assumption].
  - destruct (IH Hin) as (y & Hy & Hxy). exists y. split; [now right|assumption].
Qed.

(** A record whose mtime is not below the time of the call comes out of
    such an [Rm] as it went in. *)
Lemma Rm_spares_newer req now etag idt w r :
  ParseToken (Rm_AccessToken req) (sharedSecret s_p) = Some idt ->
  hd None (faults w) = None ->
  (5 <= length (strings.Split (path.Clean (Rm_Path req)) "/"))%nat ->
  (0 <= now)%Z ->
  In r (rows w) -> (now <= Z.of_N (MTime r))%Z ->
  exists w', Rm ParseToken s_p req now etag w = (Ret None, w') /\
             In r (rows w').
Proof.
  intros Hauth Hf Hdeep Hnow Hin Hnew.
  destruct (Rm_effect req now etag idt w Hauth Hf Hdeep)
    as (paths & w' & _ & Hrm & Ht).
  exists w'. split; [assumption|].
  assert (Hkept : In r (filter (fun rc => negb (doomed (path.Clean (Rm_Path req))
                                                  now rc)) (rows w))).
  { apply filter_In. split; [assumption|]. unfold doomed.
    destruct (Z.ltb_spec (Z.of_N (MTime r)) now); [lia|].
    now rewrite andb_false_r. }
  destruct (Forall2_In_l _ _ _ _ Ht Hkept) as (r' & Hr' & [-> | (_ & Hlt & _)]);
    [assumption|].
  pose proof (uint32_le now Hnow). lia.
Qed.

End Subtree_calls.

Section Rename_facts.

Variable ParseToken : string -> string -> option string.
Variable s_p : newServerParams.

Lemma assign_renamed_keys newPath etag mtime r :
  ID (gorm.assign (renamed newPath etag mtime) r) = ID r /\
  Checksum (gorm.assign (renamed newPath etag mtime) r) = Checksum r.
Proof. now destruct r. Qed.

Lemma update_where_renamed_keys sel newPath etag mtime rs :
  map ID (gorm.update_where sel (renamed newPath etag mtime) rs) = map ID rs /\
  map Checksum (gorm.update_where sel (renamed newPath etag mtime) rs)
  = map Checksum rs.
Proof.
  unfold gorm.update_where. rewrite !map_map.
  split; apply map_ext; intros r; destruct (sel r); try reflexivity;
    apply assign_renamed_keys.
Qed.

(** An update issued on [s.db] returns; it leaves the transaction alone
    and the table as it was or with the statement applied. *)
Lemma Updates_on_s_db sel vals w :
  exists r w',
    gorm.Updates gorm.s_db sel vals w = (Ret r, w') /\
    pending w' = pending w /\
    (rows w' = rows w \/ rows w' = gorm.update_where sel vals (rows w)).
Proof.
  unfold gorm.Updates, bind, next_fault, ret.
  destruct (faults w) as [|[msg|] fs]; do 2 eexists;
    (split; [reflexivity|]); cbn; auto.
Qed.

(** The loop of [Mv] returns, with nothing queued on the transaction, and
    keeps every property of the table that each of its statements keeps. *)
Lemma rename_loop_keeps (I : list record -> Prop) t src dst etag mtime :
  (forall sel newPath rs, I rs ->
     I (gorm.update_where sel (renamed newPath etag mtime) rs)) ->
  forall recs w, I (rows w) -> pending w = [] ->
  exists r w',
    rename_loop t src dst etag mtime recs w = (Ret r, w') /\
    I (rows w') /\ pending w' = [].
Proof.
  intros Hstep. induction recs as [|rec rest IH]; intros w HI Hp.
  - exists None, w. auto.
  - cbn [rename_loop]. unfold bind at 1.
    match goal with
    | |- context [gorm.Updates gorm.s_db ?sel ?vals w] =>
        destruct (Updates_on_s_db sel vals w) as (r & w1 & -> & Hp1 & Hrows)
    end.
    assert (HI1 : I (rows w1)).
    { destruct Hrows as [-> | ->]; [assumption|]. now apply Hstep. }
    rewrite Hp in Hp1.
    destruct (gorm.Error r) as [err|].
    + unfold bind, log_Error, gorm.Rollback, ret. do 2 eexists.
      split; [reflexivity|]. cbn. auto.
    + apply IH; assumption.
Qed.

(** Whatever the store answers, and whether [Mv] returns or panics, every
    row keeps its id and its checksum. *)
Lemma Mv_keeps_ids_and_checksums req etag now w :
  exists out w',
    Mv ParseToken s_p req etag now w = (out, w') /\
    map ID (rows w') = map ID (rows w) /\
    map Checksum (rows w') = map Checksum (rows w).
Proof.
  unfold Mv.
  destruct (ParseToken (Mv_AccessToken req) (sharedSecret s_p)) as [idt|].
  2:{ do 2 eexists. split; [reflexivity|]. cbn. auto. }
  unfold bind at 1.
  assert (Hlook : exists recs w1,
            getRecordsWithPathPrefix (path.Clean (Src req)) w
            = (Ret (recs, None), w1) /\ rows w1 = rows w).
  { rewrite getRecordsWithPathPrefix_run.
    destruct (faults w) as [|[msg|] fs]; do 2 eexists; split; reflexivity. }
  destruct Hlook as (recs & w1 & -> & Hrows1).
  unfold bind at 1. unfold gorm.Begin at 1.
  destruct (rename_loop_keeps
              (fun rs => map ID rs = map ID (rows w) /\
                         map Checksum rs = map Checksum (rows w))
              gorm.tx (path.Clean (Src req)) (path.Clean (Dst req)) etag
              (uint32 now)) with (recs := recs) (w := set_pending [] w1)
    as (r & w2 & Hloop & (Hid & Hck) & Hp2).
  - intros sel newPath rs [Hi Hc].
    destruct (update_where_renamed_keys sel newPath etag (uint32 now) rs)
      as [Hi' Hc'].
    split; congruence.
  - cbn. rewrite Hrows1. auto.
  - reflexivity.
  - unfold bind at 1. rewrite Hloop.
    destruct r as [err|].
    + do 2 eexists. split; [reflexivity|]. auto.
    + unfold bind at 1. unfold gorm.Commit at 1. rewrite Hp2.
      cbn [fold_left].
      destruct (getPathsTillHome (path.Clean (Dst req))) as [paths|msg] eqn:Hpaths.
      * match goal with
        | |- context [bind (propagateChanges ?p ?e ?m ?s) ?k ?w0] =>
            destruct (propagateChanges_deep p e m s paths w0 Hpaths)
              as (w3 & Hprop & Ht)
        end.
        unfold bind at 1. rewrite Hprop. unfold bind, ret.
        do 2 eexists. split; [reflexivity|].
        destruct (touched_all_keys _ _ _ _ _ Ht) as (Hi & _ & Hc).
        cbn in Hi, Hc. split; congruence.
      * unfold bind at 1.
        rewrite propagateChanges_shallow with (msg := msg) by assumption.
        do 2 eexists. split; [reflexivity|]. cbn. auto.
Qed.

End Rename_facts.

(** ** What [LIKE p%] matches *)

Section Like_facts.

Lemma like_percent s : sql.like ["%"%char] s = true.
Proof.
  induction s as [|d s IH]; [reflexivity|].
  cbn [sql.like Ascii.eqb Bool.eqb] in *. cbn [orb]. exact IH.
Qed.

Lemma like_literal_char c pat s :
  literal_char c = true ->
  sql.like (c :: pat) s =
  match s with
  | [] => false
  | d :: s' => Ascii.eqb d c && sql.like pat s'
  end.
Proof.
  unfold literal_char. rewrite !andb_true_iff, !negb_true_iff.
  intros [[H1 H2] H3]. cbn [sql.like]. now rewrite H1, H2, H3.
Qed.

(** Without wildcards in [p], [s LIKE p%] holds exactly of the strings that
    begin with the characters of [p]: nothing asks for a slash, or for the
    end of the string, after them. *)
Lemma LIKE_prefix_iff p : forall s,
  literal p = true ->
  (sql.LIKE s (p ++ "%") = true <-> exists t, s = p ++ t).
Proof.
  unfold sql.LIKE.
  induction p as [|c p IH]; intros s Hlit.
  - cbn [append list_ascii_of_string]. rewrite like_percent.
    split; [intros _; now exists s | reflexivity].
  - cbn [literal] in Hlit. apply andb_true_iff in Hlit. destruct Hlit as [Hc Hp].
    cbn [append list_ascii_of_string]. rewrite like_literal_char by assumption.
    destruct s as [|d s]; cbn [list_ascii_of_string].
    + split; [discriminate|]. intros [t Ht]. discriminate.
    + rewrite andb_true_iff, Ascii.eqb_eq, (IH s Hp). split.
      * intros [-> [t ->]]. now exists t.
      * intros [t Ht]. inversion Ht; subst. split; [reflexivity|now exists t].
Qed.

Lemma NoDup_map_inj {A B} (f : A -> B) l a b :
  NoDup (map f l) -> In a l -> In b l -> f a = f b -> a = b.
Proof.
  induction l as [|x l IH]; intros Hnd Ha Hb Hf; [contradiction|].
  cbn [map] in Hnd. inversion Hnd as [|? ? Hnotin Hnd']; subst.
  destruct Ha as [<-|Ha], Hb as [<-|Hb]; auto.
  - exfalso. apply Hnotin. rewrite Hf. now apply in_map.
  - exfalso. apply Hnotin. rewrite <- Hf. now apply in_map.
Qed.

Variable ParseToken : string -> string -> option string.
Variable s_p : newServerParams.

(** In a table with distinct ids, a record whose path begins with the
    characters of the cleaned argument and whose mtime is below the time
    of the call is gone after [Rm], wherever the match of the characters
    stops. *)
Lemma Rm_deletes_every_match req now etag idt w r t :
  ParseToken (Rm_AccessToken req) (sharedSecret s_p) = Some idt ->
  hd None (faults w) = None ->
  (5 <= length (strings.Split (path.Clean (Rm_Path req)) "/"))%nat ->
  literal (path.Clean (Rm_Path req)) = true ->
  NoDup (map ID (rows w)) ->
  In r (rows w) ->
  Path r = path.Clean (Rm_Path req) ++ t ->
  (Z.of_N (MTime r) < now)%Z ->
  exists w', Rm ParseToken s_p req now etag w = (Ret None, w') /\
             ~ In (ID r) (map ID (rows w')).
Proof.
  intros Hauth Hf Hdeep Hlit Hnd Hin Hpath Hold.
  destruct (Rm_effect ParseToken s_p req now etag idt w Hauth Hf Hdeep)
    as (paths & w' & _ & Hrm & Ht).
  exists w'. split; [assumption|].
  destruct (touched_all_keys _ _ _ _ _ Ht) as (Hids & _ & _).
  rewrite Hids. intros Hid. apply in_map_iff in Hid.
  destruct Hid as (r2 & Hid2 & Hin2). apply filter_In in Hin2.
  destruct Hin2 as [Hin2 Hkeep].
  assert (r2 = r) by (eapply NoDup_map_inj; eauto). subst r2.
  assert (Hd : doomed (path.Clean (Rm_Path req)) now r = true).
  { unfold doomed, like_prefix. apply andb_true_iff. split.
    - apply LIKE_prefix_iff; [assumption|]. now exists t.
    - now apply Z.ltb_lt. }
  rewrite Hd in Hkeep. discriminate.
Qed.

End Like_facts.

(** ** Propagation when the store executes every statement *)

Section Exact_propagation.

Variable ParseToken : string -> string -> option string.
Variable s_p : newServerParams.







End Exact_propagation.

(* ------------------------------------------------------------------ *)
(** * The claims *)

Section Claims.

Variable ParseToken : string -> string -> option string.
Variable s_p : newServerParams.

(** C1 (the code departs from the claim).  [Mv] of
    [/local/users/d/demo/docs] to [/local/users/d/demo/archive] on the
    sample store returns [nil], and then: the record of
    [docs/sales.csv] sits at [archive/.csv], because
    [strings.Trim(rec.Path, src)] strips every leading and trailing
    character that occurs anywhere in [src] instead of the prefix [src];
    the record of [docs2/x.txt], which is not under [docs], has been moved
    to [archive/2/x.txt], because [LIKE src%] is a match on characters.
    Ids are kept, as the claim says. *)
Theorem Mv_strips_characters_and_moves_siblings :
  let w := world_of demo_rows [] in
  let req := mkMvReq "t" "/local/users/d/demo/docs"
               "/local/users/d/demo/archive" in
  let out := Mv any_token params req "e-new" 100 w in
  fst out = Ret None /\
  map (fun r => (ID r, Path r)) (rows (snd out)) =
    [ ("id-home", "/local/users/d/demo");
      ("id-docs", "/local/users/d/demo/archive");
      ("id-sales", "/local/users/d/demo/archive/.csv");
      ("id-notes", "/local/users/d/demo/archive/notes.txt");
      ("id-other", "/local/users/d/demo/archive/2/x.txt") ].
Proof. vm_compute. split; reflexivity. Qed.

(** C2 (the code departs from the claim).  The updates of [Mv] are issued
    on [s.db], not on the transaction [tx], so [tx.Rollback()] has nothing
    to undo: when the second update fails, [Mv] returns the error and the
    store holds the first record under its new path next to the other
    records under their old paths. *)
Theorem Mv_failed_update_leaves_half_renamed :
  let w := world_of demo_rows [None; None; Some "Deadlock found"] in
  let req := mkMvReq "t" "/local/users/d/demo/docs"
               "/local/users/d/demo/archive" in
  let out := Mv any_token params req "e-new" 100 w in
  fst out = Ret (Some (driverError "Deadlock found")) /\
  rows (snd out) =
    [ mkRecord "id-home" "/local/users/d/demo" "" "e0" 10;
      mkRecord "id-docs" "/local/users/d/demo/archive" "" "e-new" 100;
      mkRecord "id-sales" "/local/users/d/demo/docs/sales.csv" "c2" "e2" 10;
      mkRecord "id-notes" "/local/users/d/demo/docs/notes.txt" "c3" "e3" 10;
      mkRecord "id-other" "/local/users/d/demo/docs2/x.txt" "c4" "e4" 10 ] /\
  rows (snd out) <> rows w.
Proof. vm_compute. repeat split; try reflexivity. discriminate. Qed.

(** C3 (the code departs from the claim).  On the path of the comment of
    [propagateChanges], [/local/users/d/demo/photos/1.png], the resolver
    returns the home directory, [photos] and then the path itself: the
    list does not end at the parent. *)
Theorem getPathsTillHome_ends_with_the_path_itself :
  getPathsTillHome "/local/users/d/demo/photos/1.png" =
  Ret [ "/local/users/d/demo";
        "/local/users/d/demo/photos";
        "/local/users/d/demo/photos/1.png" ].
Proof. reflexivity. Qed.

(** C4, as amended.  After a successful [Put] during which the store has
    executed every statement, every record that is stored at a path of the
    resolved list (from the home directory down to the path itself) carries
    an mtime that is not older than the one written by the call. *)
Theorem Put_settles_stored_ancestors req etag newid now w w' :
  fault_free w ->
  Put ParseToken s_p req etag newid now w = (Ret None, w') ->
  exists paths,
    getPathsTillHome (path.Clean (Put_Path req)) = Ret paths /\
    forall a r, In a paths -> In r (rows w') -> Path r = a ->
                (uint32 now <= MTime r)%N.
Proof.
  intros Hff Hput.
  destruct (ParseToken (Put_AccessToken req) (sharedSecret s_p))
    as [idt|] eqn:Hauth.
  2:{ unfold Put in Hput. rewrite Hauth in Hput. discriminate. }
  assert (Hf1 : hd None (faults w) = None).
  { unfold fault_free in Hff. destruct (faults w); [reflexivity|].
    now inversion Hff. }
  assert (Hf2 : hd None (tl (faults w)) = None).
  { unfold fault_free in Hff. destruct (faults w) as [|f [|g fs]];
      try reflexivity. inversion Hff as [|? ? _ Hff']; subst.
    now inversion Hff'. }
  destruct (getPathsTillHome (path.Clean (Put_Path req)))
    as [paths|msg] eqn:Hpaths.
  - destruct (Put_settles ParseToken s_p req etag newid now idt paths w
                Hauth Hff Hpaths) as (w2 & Hput2 & Hs).
    rewrite Hput in Hput2. inversion Hput2; subst w2.
    exists paths. split; [reflexivity|].
    intros a r Ha Hr Hp. exact (Hs a Ha r Hr Hp).
  - destruct (Put_shallow_panics ParseToken s_p req etag newid now idt msg w
                Hauth Hf1 Hf2 Hpaths) as (w2 & Hput2).
    rewrite Hput in Hput2. discriminate.
Qed.

(** C5 (the code departs from the claim).  On every path of fewer than
    five tokens the resolver panics: [tokens[0:5]] is out of range and
    nothing checks the length before. *)
Theorem getPathsTillHome_panics_on_short_paths p :
  (length (strings.Split p "/") < 5)%nat ->
  getPathsTillHome p = Panic "runtime error: slice bounds out of range".
Proof.
  intros H. unfold getPathsTillHome, slice_home_rest.
  destruct (Nat.ltb_spec (length (strings.Split p "/")) 5) as [_|Hge];
    [reflexivity|lia].
Qed.

(** C6 (the code departs from the claim).  [Rm] of
    [/local/users/d/demo/docs] at time 100 deletes the record of
    [/local/users/d/demo/docs2/x.txt], whose path begins with the
    characters of the argument without being under it.  The record with
    mtime 100 survives, as the claim says. *)
Theorem Rm_deletes_sibling_sharing_the_prefix :
  let late := mkRecord "id-late" "/local/users/d/demo/docs/late.txt"
                "c5" "e5" 100 in
  let w := world_of (demo_rows ++ [late])%list [] in
  let req := mkRmReq "t" "/local/users/d/demo/docs" in
  let out := Rm any_token params req 100 "e-new" w in
  In "/local/users/d/demo/docs2/x.txt" (map Path (rows w)) /\
  fst out = Ret None /\
  rows (snd out) =
    [ mkRecord "id-home" "/local/users/d/demo" "" "e-new" 100; late ].
Proof. vm_compute. repeat split; try reflexivity. tauto. Qed.

(** C7 (the code departs from the claim).  [Put] on
    [/local/users/d], a path of four tokens: the lookup and the insert
    execute, the record is stored, and the call does not return: the
    propagation panics in the resolver. *)
Theorem Put_panics_after_the_write_on_short_paths :
  let w := world_of demo_rows [] in
  let req := mkPutReq "t" "/local/users/d" "ck" in
  let out := Put any_token params req "e-new" "id-new" 100 w in
  fst out = Panic "runtime error: slice bounds out of range" /\
  rows (snd out) =
    (demo_rows ++ [mkRecord "id-new" "/local/users/d" "ck" "e-new" 100])%list.
Proof. vm_compute. split; reflexivity. Qed.

(** C8.  When every record stored at a path has an mtime newer than the
    one supplied, [update] reports zero rows and leaves the table as it
    was. *)
Theorem update_with_older_mtime_changes_nothing p etag mtime w :
  (forall r, In r (rows w) -> Path r = p -> (mtime < MTime r)%N) ->
  exists w', update p etag mtime w = (Ret 0%Z, w') /\ rows w' = rows w.
Proof.
  intros Hnewer.
  assert (Hsel : forall r, In r (rows w) -> stale_at p mtime r = false).
  { intros r Hr. destruct (stale_at p mtime r) eqn:Hs; [|reflexivity].
    apply stale_at_true in Hs. destruct Hs as [Hp Hlt].
    specialize (Hnewer r Hr Hp). lia. }
  rewrite update_run.
  rewrite (count_where_none _ _ Hsel), (update_where_none _ _ _ Hsel).
  destruct (faults w) as [|[msg|] fs]; eexists; split; reflexivity.
Qed.


(** C10 (the code departs from the claim on one point).  The prefix
    lookup returns a [nil] error whatever the store answers, and a lookup
    that failed hands [Mv] an empty batch; but with a destination of fewer
    than five tokens, here [/local/users/d], [Mv] then does not return
    success: the propagation panics in the resolver. *)
Theorem Mv_after_failed_lookup_panics_on_short_destination :
  (forall p w, exists recs w',
      getRecordsWithPathPrefix p w = (Ret (recs, None), w') /\
      rows w' = rows w) /\
  let w := world_of demo_rows [Some "connection refused"] in
  let req := mkMvReq "t" "/local/users/d/demo/docs" "/local/users/d" in
  let out := Mv any_token params req "e-new" 100 w in
  fst out = Panic "runtime error: slice bounds out of range" /\
  rows (snd out) = demo_rows /\
  logs (snd out) = [LogError (driverError "connection refused")].
Proof.
  split.
  - intros p w. rewrite getRecordsWithPathPrefix_run.
    destruct (faults w) as [|[msg|] fs]; do 2 eexists; split; reflexivity.
  - vm_compute. repeat split; reflexivity.
Qed.

End Claims.

(** ** The claims on concrete stores *)

(** C4 as stated fails twice over.  First run: the store answers the
    update of [/local/users/d/demo/docs] with a failure, which [update]
    drops; [Put] returns [nil] and the record of that ancestor keeps
    mtime 10, older than the 100 just written.  Second run, on an empty
    store and without any failure: [Put] returns [nil] and no ancestor has
    a record at all, since propagation only updates rows that exist. *)
Lemma Put_success_with_ancestor_behind :
  (let w := world_of demo_rows [None; None; None; Some "Lock wait timeout"] in
   let req := mkPutReq "t" "/local/users/d/demo/docs/new.txt" "ck" in
   let out := Put any_token params req "e-new" "id-new" 100 w in
   fst out = Ret None /\
   exists paths a r,
     getPathsTillHome (path.Clean (Put_Path req)) = Ret paths /\
     In a paths /\ In r (rows (snd out)) /\ Path r = a /\
     (MTime r < uint32 100)%N) /\
  (let w := world_of [] [] in
   let req := mkPutReq "t" "/local/users/d/demo/docs/new.txt" "ck" in
   let out := Put any_token params req "e-new" "id-new" 100 w in
   fst out = Ret None /\
   rows (snd out) =
     [mkRecord "id-new" "/local/users/d/demo/docs/new.txt" "ck" "e-new" 100]).
Proof.
  split.
  - split; [reflexivity|].
    exists [ "/local/users/d/demo"; "/local/users/d/demo/docs";
             "/local/users/d/demo/docs/new.txt" ],
           "/local/users/d/demo/docs",
           (mkRecord "id-docs" "/local/users/d/demo/docs" "" "e1" 10).
    vm_compute. repeat split; auto.
  - vm_compute. split; reflexivity.
Qed.

Lemma Put_settles_stored_ancestors_witness :
  let req := mkPutReq "t" "/local/users/d/demo/docs/new.txt" "ck" in
  let w := world_of demo_rows [None; None; None; None] in
  let w' := snd (Put any_token params req "e-new" "id-new" 100 w) in
  fault_free w /\
  Put any_token params req "e-new" "id-new" 100 w = (Ret None, w') /\
  exists paths,
    getPathsTillHome (path.Clean (Put_Path req)) = Ret paths /\
    forall a r, In a paths -> In r (rows w') -> Path r = a ->
                (uint32 100 <= MTime r)%N.
Proof.
  intros req w w'.
  assert (Hff : fault_free w) by (repeat constructor).
  assert (Hput : Put any_token params req "e-new" "id-new" 100 w
                 = (Ret None, w')) by (vm_compute; reflexivity).
  split; [exact Hff|]. split; [exact Hput|].
  exact (Put_settles_stored_ancestors any_token params req "e-new" "id-new"
           100 w w' Hff Hput).
Defined.

Lemma getPathsTillHome_panics_on_short_paths_witness :
  (length (strings.Split "/local/users/d" "/") < 5)%nat /\
  getPathsTillHome "/local/users/d"
  = Panic "runtime error: slice bounds out of range".
Proof.
  assert (H : (length (strings.Split "/local/users/d" "/") < 5)%nat)
    by (vm_compute; lia).
  split; [exact H|].
  exact (getPathsTillHome_panics_on_short_paths "/local/users/d" H).
Defined.

Lemma update_with_older_mtime_changes_nothing_witness :
  let w := world_of demo_rows [] in
  let p := "/local/users/d/demo/docs" in
  (forall r, In r (rows w) -> Path r = p -> (5 < MTime r)%N) /\
  exists w', update p "e-old" 5 w = (Ret 0%Z, w') /\ rows w' = rows w.
Proof.
  intros w p.
  assert (H : forall r, In r (rows w) -> Path r = p -> (5 < MTime r)%N).
  { intros r Hr _. cbn in Hr.
    repeat (destruct Hr as [<-|Hr]; [cbn; lia|]). contradiction. }
  split; [exact H|].
  exact (update_with_older_mtime_changes_nothing p "e-old" 5%N w H).
Defined.



(** ** Lookups and upserts *)

Section Lookup_facts.

(** The three ways a call of [getByPath] can go. *)
Lemma getByPath_run p w :
  getByPath p w =
  match faults w with
  | Some msg :: fs =>
      (Ret (mkRecord "" "" "" "" 0, Some (driverError msg)), set_faults fs w)
  | None :: fs => (Ret (lookup p (rows w)), set_faults fs w)
  | [] => (Ret (lookup p (rows w)), w)
  end.
Proof.
  unfold getByPath, gorm.First, bind, next_fault, ret, lookup.
  destruct (faults w) as [|[msg|] fs]; cbn [rows set_faults];
    try destruct (find _ (rows w)); reflexivity.
Qed.

(** [getByPath] when the store executes its query. *)
Lemma getByPath_executed p w :
  hd None (faults w) = None ->
  getByPath p w = (Ret (lookup p (rows w)), set_faults (tl (faults w)) w).
Proof.
  intros Hf. rewrite getByPath_run.
  destruct w as [rs ps fs ls]. cbn in *.
  destruct fs as [|[msg|] fs]; cbn in *; try discriminate; reflexivity.
Qed.

(** In a table with distinct ids, the upsert of [Put] for a path that has
    a record rewrites that record and no other. *)
Lemma upsert_found p ck etag mtime r rs :
  NoDup (map ID rs) ->
  find (fun rc => Path rc =? p) rs = Some r ->
  find (fun rc => Path rc =? p)
       (gorm.upsert (mkRecord (ID r) p ck etag mtime) rs)
  = Some (mkRecord (ID r) p ck etag mtime) /\
  map ID (gorm.upsert (mkRecord (ID r) p ck etag mtime) rs) = map ID rs /\
  map Path (gorm.upsert (mkRecord (ID r) p ck etag mtime) rs) = map Path rs.
Proof.
  induction rs as [|x rs IH]; intros Hnd Hfind; [discriminate|].
  cbn [find] in Hfind. cbn [gorm.upsert ID Path].
  destruct (String.eqb_spec (Path x) p) as [Hp|Hp].
  - inversion Hfind; subst x. rewrite String.eqb_refl. cbn [orb find Path].
    rewrite Hp, String.eqb_refl. cbn [map ID Path]. rewrite Hp. auto.
  - cbn [map] in Hnd. inversion Hnd as [|? ? Hnotin Hnd']; subst.
    assert (Hid : (ID x =? ID r) = false).
    { apply String.eqb_neq. intros Heq. apply Hnotin. rewrite Heq.
      apply in_map. eapply find_some. exact Hfind. }
    rewrite Hid. cbn [orb find map].
    destruct (String.eqb_spec (Path x) p) as [|_]; [contradiction|].
    destruct (IH Hnd' Hfind) as (Hf & Hi & Hpa).
    rewrite Hf, Hi, Hpa. auto.
Qed.

(** The upsert of a row whose id and path are both new appends it. *)
Lemma upsert_fresh new rs :
  ~ In (ID new) (map ID rs) ->
  find (fun rc => Path rc =? Path new) rs = None ->
  gorm.upsert new rs = (rs ++ [new])%list.
Proof.
  induction rs as [|x rs IH]; intros Hid Hfind; [reflexivity|].
  cbn [find] in Hfind. cbn [gorm.upsert map In] in *.
  destruct (String.eqb_spec (Path x) (Path new)) as [|Hp]; [discriminate|].
  destruct (String.eqb_spec (ID x) (ID new)) as [Heq|_];
    [exfalso; apply Hid; now left|].
  cbn [orb app]. f_equal. apply IH; [|assumption].
  intros H. apply Hid. now right.
Qed.

Lemma find_app_none {A} (f : A -> bool) l x :
  find f l = None -> find f (l ++ [x]) = (if f x then Some x else None).
Proof.
  induction l as [|y l IH]; intros H; [reflexivity|].
  cbn [find app] in *. destruct (f y); [discriminate|]. now apply IH.
Qed.

(** Propagation does not move the answer of a lookup whose record is not
    older than the fingerprint. *)
Lemma touched_find paths etag mtime p rs rs' x :
  Forall2 (touched paths etag mtime) rs rs' ->
  find (fun rc => Path rc =? p) rs = Some x ->
  (mtime <= MTime x)%N ->
  find (fun rc => Path rc =? p) rs' = Some x.
Proof.
  induction 1 as [|r r' rs rs' Ht _ IH]; intros Hfind Hge; [discriminate|].
  cbn [find] in *.
  destruct (touched_keys _ _ _ _ _ Ht) as (_ & Hpath & _). rewrite Hpath.
  destruct (Path r =? p).
  - inversion Hfind; subst x.
    destruct Ht as [-> | (_ & Hlt & _)]; [reflexivity|lia].
  - now apply IH.
Qed.

(** Propagation does not make a path appear that had no record. *)
Lemma touched_find_none paths etag mtime p rs rs' :
  Forall2 (touched paths etag mtime) rs rs' ->
  find (fun rc => Path rc =? p) rs = None ->
  find (fun rc => Path rc =? p) rs' = None.
Proof.
  induction 1 as [|r r' rs rs' Ht _ IH]; intros Hfind; [reflexivity|].
  cbn [find] in *.
  destruct (touched_keys _ _ _ _ _ Ht) as (_ & Hpath & _). rewrite Hpath.
  destruct (Path r =? p); [discriminate|]. now apply IH.
Qed.

End Lookup_facts.

(** ** Runs of [Put] and [Get] *)

Section Put_Get_runs.

Variable ParseToken : string -> string -> option string.
Variable s_p : newServerParams.

(** The second half of [Put] when the store executes every statement: the
    upsert, then propagation. *)
Lemma Put_save_fault_free p checksum etag mtime id paths w :
  fault_free w ->
  getPathsTillHome p = Ret paths ->
  exists w',
    Put_save p checksum etag mtime id w = (Ret None, w') /\
    fault_free w' /\
    Forall2 (touched paths etag mtime)
      (gorm.upsert (mkRecord id p checksum etag mtime) (rows w)) (rows w').
Proof.
  intros Hff Hpaths.
  destruct (fault_free_insert id p checksum etag mtime w Hff)
    as (w1 & Hins & Hrows & Hff1).
  unfold Put_save. unfold bind at 1. rewrite Hins.
  unfold propagateChanges, lift. rewrite Hpaths.
  destruct (propagate_loop_touches paths etag mtime w1) as (w2 & Hloop & Ht).
  destruct (propagate_loop_settles etag mtime paths w1 w2 Hff1 Hloop)
    as [Hff2 _].
  unfold bind. rewrite Hloop. cbn [ret].
  exists w2. rewrite <- Hrows. auto.
Qed.

(** [Put] when the store executes every statement, on a path of five tokens
    or more: the row is upserted under [put_id], then propagation runs. *)
Lemma Put_fault_free req etag newid now idt paths w :
  ParseToken (Put_AccessToken req) (sharedSecret s_p) = Some idt ->
  fault_free w ->
  getPathsTillHome (path.Clean (Put_Path req)) = Ret paths ->
  exists w',
    Put ParseToken s_p req etag newid now w = (Ret None, w') /\
    fault_free w' /\
    Forall2 (touched paths etag (uint32 now))
      (gorm.upsert
         (mkRecord (put_id (path.Clean (Put_Path req)) newid (rows w))
                   (path.Clean (Put_Path req)) (Put_Checksum req) etag
                   (uint32 now))
         (rows w))
      (rows w').
Proof.
  intros Hauth Hff Hpaths. unfold Put. rewrite Hauth.
  unfold bind at 1. rewrite getByPath_run. unfold put_id, lookup.
  assert (Hw1 : exists w1,
            fault_free w1 /\ rows w1 = rows w /\
            match faults w with
            | Some _ :: _ => False
            | None :: fs => w1 = set_faults fs w
            | [] => w1 = w
            end).
  { unfold fault_free in *. destruct (faults w) as [|[msg|] fs] eqn:Hf.
    - exists w. rewrite Hf. auto.
    - inversion Hff; discriminate.
    - exists (set_faults fs w). inversion Hff; subst. auto. }
  destruct Hw1 as (w1 & Hff1 & Hrows1 & Hw1).
  destruct (faults w) as [|[msg|] fs]; [subst w1 | contradiction | subst w1];
    destruct (find (fun rc => Path rc =? path.Clean (Put_Path req)) (rows w))
      as [r|];
    try (unfold bind at 1; cbn [log_Error error_eqb]);
    match goal with
    | |- context [Put_save ?p ?c ?e ?m ?i ?w0] =>
        destruct (Put_save_fault_free p c e m i paths w0) as (w' & Hs & Hf' & Ht);
          [assumption | exact Hpaths |]
    end;
    exists w'; auto.
Qed.

(** [Put] on a path of five tokens or more once its lookup and its insert
    have executed, whatever the store answers afterwards. *)
Lemma Put_run_deep req etag newid now idt paths w :
  ParseToken (Put_AccessToken req) (sharedSecret s_p) = Some idt ->
  hd None (faults w) = None ->
  hd None (tl (faults w)) = None ->
  getPathsTillHome (path.Clean (Put_Path req)) = Ret paths ->
  exists w',
    Put ParseToken s_p req etag newid now w = (Ret None, w') /\
    Forall2 (touched paths etag (uint32 now))
      (gorm.upsert
         (mkRecord (put_id (path.Clean (Put_Path req)) newid (rows w))
                   (path.Clean (Put_Path req)) (Put_Checksum req) etag
                   (uint32 now))
         (rows w))
      (rows w').
Proof.
  intros Hauth Hf1 Hf2 Hpaths. unfold Put. rewrite Hauth.
  unfold bind at 1. rewrite getByPath_executed by assumption.
  unfold put_id, lookup.
  destruct (find (fun rc => Path rc =? path.Clean (Put_Path req)) (rows w))
    as [r|];
    try (unfold bind at 1; cbn [log_Error error_eqb]);
    match goal with
    | |- context [Put_save ?p ?c ?e ?m ?i ?w0] =>
        destruct (Put_save_deep p c e m i paths w0) as (w' & Hs & Ht);
          [exact Hf2 | exact Hpaths |]
    end;
    exists w'; auto.
Qed.

(** The table after the upsert of [Put], in a table with distinct ids where
    the new id is not in use: the lookup of the path finds the record just
    written. *)
Lemma upsert_then_lookup p ck etag mtime newid rs :
  NoDup (map ID rs) ->
  (find (fun rc => Path rc =? p) rs = None -> ~ In newid (map ID rs)) ->
  find (fun rc => Path rc =? p)
       (gorm.upsert (mkRecord (put_id p newid rs) p ck etag mtime) rs)
  = Some (mkRecord (put_id p newid rs) p ck etag mtime) /\
  NoDup (map ID (gorm.upsert (mkRecord (put_id p newid rs) p ck etag mtime)
                             rs)).
Proof.
  intros Hnd Hfresh. unfold put_id.
  destruct (find (fun rc => Path rc =? p) rs) as [r|] eqn:Hfind.
  - destruct (upsert_found p ck etag mtime r rs Hnd Hfind) as (Hf & Hi & _).
    rewrite Hi. auto.
  - specialize (Hfresh eq_refl).
    rewrite upsert_fresh by assumption.
    rewrite find_app_none by assumption. cbn [Path].
    rewrite String.eqb_refl. split; [reflexivity|].
    rewrite map_app. cbn [map ID]. apply NoDup_app; repeat split.
    + assumption.
    + repeat constructor. intros [].
    + intros x Hx [<-|[]]. contradiction.
Qed.

(** [Get] once its lookup has executed: the record found, or the miss with
    or without creation. *)
Lemma Get_run req etag newid now idt w :
  ParseToken (Get_AccessToken req) (sharedSecret s_p) = Some idt ->
  hd None (faults w) = None ->
  Get ParseToken s_p req etag newid now w =
  match find (fun rc => Path rc =? path.Clean (Get_Path req)) (rows w) with
  | Some r => (Ret (answer_of r, None), set_faults (tl (faults w)) w)
  | None =>
      if ForceCreation req then
        (e' <- Put ParseToken s_p
                 (mkPutReq (Get_AccessToken req) (Get_Path req) "")
                 etag newid now ;;
         match e' with
         | Some _ => ret (no_record, Some RecordNotFound)
         | None =>
             '(rec, err) <- getByPath (path.Clean (Get_Path req)) ;;
             match err with
             | Some _ => ret (no_record, None)
             | None => ret (answer_of rec, None)
             end
         end) (add_log (LogError RecordNotFound)
                       (set_faults (tl (faults w)) w))
      else (Ret (no_record, Some RecordNotFound),
            add_log (LogError RecordNotFound) (set_faults (tl (faults w)) w))
  end.
Proof.
  intros Hauth Hf. unfold Get. rewrite Hauth.
  unfold bind at 1. rewrite getByPath_executed by assumption. unfold lookup.
  destruct (find (fun rc => Path rc =? path.Clean (Get_Path req)) (rows w))
    as [r|]; [reflexivity|].
  unfold bind at 1. cbn [log_Error error_eqb negb].
  destruct (ForceCreation req); reflexivity.
Qed.

End Put_Get_runs.

(** ** The loop of [Mv], row by row *)

Section Rename_rows.

Variables (src dst etag : string) (mtime : N).

Lemma rename_all_rowwise recs : forall rs,
  rename_all src dst etag mtime recs rs
  = map (fun r => fold_left (rename_step src dst etag mtime) recs r) rs.
Proof.
  unfold rename_all. induction recs as [|rec recs IH]; intros rs.
  - cbn [fold_left]. now rewrite map_id.
  - cbn [fold_left]. rewrite IH. unfold gorm.update_where.
    rewrite map_map. reflexivity.
Qed.

Lemma assign_twice v r : gorm.assign v (gorm.assign v r) = gorm.assign v r.
Proof.
  destruct v as [i p c e m], r as [i' p' c' e' m']. unfold gorm.assign.
  cbn [ID Path Checksum ETag MTime].
  destruct (i =? ""), (p =? ""), (c =? ""), (e =? ""), (m =? 0)%N;
    reflexivity.
Qed.

Lemma assign_renamed_id p r :
  ID (gorm.assign (renamed p etag mtime) r) = ID r.
Proof. now destruct r. Qed.

(** In a table with distinct ids, the statements of the loop rewrite the
    rows of the records they were issued for, once, and no other row. *)
Lemma fold_step_row rows0 r recs :
  NoDup (map ID rows0) -> In r rows0 -> incl recs rows0 ->
  forall x,
    x = r \/ x = gorm.assign (renamed (new_path src dst r) etag mtime) r ->
    fold_left (rename_step src dst etag mtime) recs x =
    if existsb (fun rec => ID rec =? ID r) recs
    then gorm.assign (renamed (new_path src dst r) etag mtime) r
    else x.
Proof.
  intros Hnd Hr. induction recs as [|rec recs IH]; intros Hincl x Hx;
    [reflexivity|].
  assert (Hidx : ID x = ID r).
  { destruct Hx as [-> | ->]; [reflexivity|apply assign_renamed_id]. }
  cbn [fold_left existsb]. unfold rename_step at 2. rewrite Hidx.
  rewrite (String.eqb_sym (ID rec) (ID r)).
  destruct (String.eqb_spec (ID r) (ID rec)) as [Heq|Hne].
  - assert (rec = r).
    { eapply NoDup_map_inj; eauto. apply Hincl. now left. }
    subst rec. cbn [orb].
    assert (Hx' : gorm.assign (renamed (new_path src dst r) etag mtime) x
                  = gorm.assign (renamed (new_path src dst r) etag mtime) r).
    { destruct Hx as [-> | ->]; [reflexivity|apply assign_twice]. }
    rewrite Hx'. rewrite IH; [|intros y Hy; apply Hincl; now right|now right].
    now destruct (existsb _ recs).
  - cbn [orb]. apply IH; [intros y Hy; apply Hincl; now right|assumption].
Qed.

Lemma existsb_filter_id (f : record -> bool) rows0 r :
  NoDup (map ID rows0) -> In r rows0 ->
  existsb (fun rec => ID rec =? ID r) (filter f rows0) = f r.
Proof.
  intros Hnd Hr. destruct (f r) eqn:Hf.
  - apply existsb_exists. exists r. split; [|apply String.eqb_refl].
    apply filter_In. auto.
  - destruct (existsb _ (filter f rows0)) eqn:He; [|reflexivity].
    apply existsb_exists in He. destruct He as (rec & Hin & Hid).
    apply filter_In in Hin. destruct Hin as [Hin Hfrec].
    apply String.eqb_eq in Hid.
    assert (rec = r) by (eapply NoDup_map_inj; eauto). subst. congruence.
Qed.

(** The table after the statements issued for the records that [f]
    selects. *)
Lemma rename_all_on_selection (f : record -> bool) rows0 :
  NoDup (map ID rows0) ->
  rename_all src dst etag mtime (filter f rows0) rows0 =
  map (fun r => if f r
                then gorm.assign (renamed (new_path src dst r) etag mtime) r
                else r) rows0.
Proof.
  intros Hnd. rewrite rename_all_rowwise. apply map_ext_in. intros r Hr.
  rewrite (fold_step_row rows0 r) by
    (auto; intros y Hy; apply filter_In in Hy; tauto).
  now rewrite existsb_filter_id.
Qed.

(** The loop of [Mv] when the store executes every statement. *)
Lemma rename_loop_fault_free t recs : forall w,
  fault_free w ->
  exists w',
    rename_loop t src dst etag mtime recs w = (Ret None, w') /\
    fault_free w' /\ pending w' = pending w /\
    rows w' = rename_all src dst etag mtime recs (rows w).
Proof.
  induction recs as [|rec recs IH]; intros w Hff.
  - exists w. auto.
  - cbn [rename_loop]. unfold bind at 1. unfold gorm.Updates, bind at 1.
    destruct (fault_free_next w Hff) as (w0 & Hn & Hr & Hff0).
    rewrite Hn. cbn [gorm.Error].
    assert (Hp0 : pending w0 = pending w).
    { unfold next_fault in Hn. destruct (faults w); inversion Hn; reflexivity. }
    match goal with
    | |- context [rename_loop _ _ _ _ _ _ ?w1] =>
        destruct (IH w1) as (w' & Hrun & Hff' & Hp' & Hrows');
          [exact Hff0|]
    end.
    exists w'. split; [exact Hrun|]. split; [assumption|].
    split; [now rewrite Hp'|].
    rewrite Hrows'. cbn [rows set_rows]. rewrite Hr. reflexivity.
Qed.

(** The loop of [Mv] when the store executes [k] statements and fails the
    next: the loop returns the error, and the rows that the [k] statements
    rewrote stay rewritten after [tx.Rollback()]. *)
Lemma rename_loop_fails_at t msg fs k : forall recs w,
  (k < length recs)%nat ->
  faults w = (repeat None k ++ Some msg :: fs)%list ->
  pending w = [] ->
  exists w',
    rename_loop t src dst etag mtime recs w
    = (Ret (Some (driverError msg)), w') /\
    rows w' = rename_all src dst etag mtime (firstn k recs) (rows w) /\
    faults w' = fs.
Proof.
  induction k as [|k IH]; intros recs w Hk Hf Hp;
    (destruct recs as [|rec recs]; [cbn in Hk; lia|]).
  - cbn [rename_loop]. unfold gorm.Updates, bind, next_fault, ret,
      log_Error, gorm.Rollback. rewrite Hf. cbn.
    eexists. split; [reflexivity|]. auto.
  - cbn [rename_loop]. unfold bind at 1. unfold gorm.Updates, bind at 1.
    unfold next_fault. rewrite Hf. cbn [repeat app gorm.Error].
    match goal with
    | |- context [rename_loop _ _ _ _ _ _ ?w1] =>
        destruct (IH recs w1) as (w' & Hrun & Hrows' & Hf');
          [cbn in Hk; lia | reflexivity | exact Hp |]
    end.
    exists w'. split; [exact Hrun|]. split; [|assumption].
    rewrite Hrows'. reflexivity.
Qed.

End Rename_rows.

(* ------------------------------------------------------------------ *)
(** * Further properties of the handlers *)

Ltac distinct_ids :=
  repeat (constructor; [cbn; intuition discriminate|]); constructor.
Ltac unused_id := cbn; intuition discriminate.

Section Get_properties.

Variable ParseToken : string -> string -> option string.
Variable s_p : newServerParams.

(** X1.  [Get] without [ForceCreation], once its query has executed, is a
    plain lookup: it answers with the first record stored at the cleaned
    path, or with an empty record and [RecordNotFound], and the table is
    the same afterwards. *)
Theorem Get_is_a_lookup req etag newid now idt w :
  ParseToken (Get_AccessToken req) (sharedSecret s_p) = Some idt ->
  hd None (faults w) = None ->
  ForceCreation req = false ->
  exists w',
    Get ParseToken s_p req etag newid now w =
    (Ret (match find (fun rc => Path rc =? path.Clean (Get_Path req))
                     (rows w) with
          | Some r => (answer_of r, None)
          | None => (no_record, Some RecordNotFound)
          end), w') /\
    rows w' = rows w.
Proof.
  intros Hauth Hf Hforce.
  rewrite (Get_run ParseToken s_p req etag newid now idt w Hauth Hf), Hforce.
  destruct (find _ (rows w)); eexists; split; reflexivity.
Qed.

(** X2.  When the store fails the query of [Get], the call returns that
    error with an empty record and creates nothing, [ForceCreation] or
    not. *)
Theorem Get_returns_the_store_failure req etag newid now idt msg fs w :
  ParseToken (Get_AccessToken req) (sharedSecret s_p) = Some idt ->
  faults w = Some msg :: fs ->
  exists w',
    Get ParseToken s_p req etag newid now w =
    (Ret (no_record, Some (driverError msg)), w') /\
    rows w' = rows w /\ faults w' = fs.
Proof.
  intros Hauth Hf. unfold Get. rewrite Hauth.
  unfold bind at 1. rewrite getByPath_run, Hf.
  unfold bind at 1. cbn [log_Error error_eqb negb].
  eexists. split; [reflexivity|]. cbn. auto.
Qed.

(** X3.  [Get] with [ForceCreation] on a path of five tokens or more that
    has no record, when the store executes every statement and the new id
    is not in use: the record is created with the new id, an empty
    checksum and the fingerprint of the call, [Get] answers with it, and a
    later [Get] without [ForceCreation] answers the same. *)
Theorem Get_creates_the_missing_record req etag newid now idt w :
  ParseToken (Get_AccessToken req) (sharedSecret s_p) = Some idt ->
  fault_free w ->
  ForceCreation req = true ->
  (5 <= length (strings.Split (path.Clean (Get_Path req)) "/"))%nat ->
  find (fun rc => Path rc =? path.Clean (Get_Path req)) (rows w) = None ->
  ~ In newid (map ID (rows w)) ->
  let created := mkRecord newid (path.Clean (Get_Path req)) "" etag
                   (uint32 now) in
  exists w',
    Get ParseToken s_p req etag newid now w
    = (Ret (answer_of created, None), w') /\
    In created (rows w') /\
    forall etag2 newid2 now2, exists w'',
      Get ParseToken s_p
        (mkGetReq (Get_AccessToken req) (Get_Path req) false)
        etag2 newid2 now2 w'
      = (Ret (answer_of created, None), w'').
Proof.
  intros Hauth Hff Hforce Hdeep Hmiss Hfresh created.
  destruct (getPathsTillHome_deep _ Hdeep) as (paths & Hpaths).
  assert (Hf : hd None (faults w) = None).
  { unfold fault_free in Hff. destruct (faults w); [reflexivity|].
    now inversion Hff. }
  rewrite (Get_run ParseToken s_p req etag newid now idt w Hauth Hf).
  rewrite Hmiss, Hforce.
  set (w1 := add_log (LogError RecordNotFound) (set_faults (tl (faults w)) w)).
  assert (Hff1 : fault_free w1).
  { unfold fault_free in *. cbn. destruct (faults w); [constructor|].
    now inversion Hff. }
  destruct (Put_fault_free ParseToken s_p
              (mkPutReq (Get_AccessToken req) (Get_Path req) "")
              etag newid now idt paths w1 Hauth Hff1 Hpaths)
    as (w2 & Hput & Hff2 & Ht).
  cbn [Put_Path Put_Checksum] in Ht.
  assert (Hfound : find (fun rc => Path rc =? path.Clean (Get_Path req))
                        (rows w2) = Some created).
  { eapply touched_find; [exact Ht| |cbn; lia].
    change (rows w1) with (rows w). unfold put_id. rewrite Hmiss.
    rewrite upsert_fresh by assumption.
    rewrite find_app_none by assumption. cbn [Path].
    now rewrite String.eqb_refl. }
  assert (Hf2 : hd None (faults w2) = None).
  { unfold fault_free in Hff2. destruct (faults w2); [reflexivity|].
    now inversion Hff2. }
  unfold bind at 1. rewrite Hput.
  unfold bind at 1. rewrite getByPath_executed by assumption.
  unfold lookup. rewrite Hfound.
  eexists. split; [reflexivity|]. split.
  - cbn [rows set_faults]. eapply find_some. exact Hfound.
  - intros etag2 newid2 now2.
    rewrite (Get_run ParseToken s_p _ etag2 newid2 now2 idt); cbn;
      [| exact Hauth |].
    + cbn in Hfound. rewrite Hfound. eexists. reflexivity.
    + unfold fault_free in Hff2. destruct (faults w2) as [|f [|g fs]];
        try reflexivity. inversion Hff2 as [|? ? _ H2]; subst.
      now inversion H2.
Qed.

(** X4.  [Get] with [ForceCreation] on a path without record, when the
    store fails the insert of the inner [Put]: the caller gets an empty
    record and [RecordNotFound], not the failure of the store, and the
    table is as before. *)
Theorem Get_hides_the_failed_creation req etag newid now idt msg fs w :
  ParseToken (Get_AccessToken req) (sharedSecret s_p) = Some idt ->
  ForceCreation req = true ->
  find (fun rc => Path rc =? path.Clean (Get_Path req)) (rows w) = None ->
  faults w = None :: None :: Some msg :: fs ->
  exists w',
    Get ParseToken s_p req etag newid now w
    = (Ret (no_record, Some RecordNotFound), w') /\
    rows w' = rows w /\
    In (LogError (driverError msg)) (logs w').
Proof.
  intros Hauth Hforce Hmiss Hf.
  rewrite (Get_run ParseToken s_p req etag newid now idt w Hauth)
    by (now rewrite Hf).
  rewrite Hmiss, Hforce, Hf. cbn [tl].
  unfold bind at 1. unfold Put. cbn [Put_AccessToken Put_Path Put_Checksum].
  rewrite Hauth. unfold bind at 1. rewrite getByPath_run. cbn [faults add_log set_faults rows].
  unfold lookup. rewrite Hmiss.
  unfold bind at 1. cbn [log_Error error_eqb].
  unfold Put_save, insert, gorm.Exec_insert, bind, next_fault, ret.
  cbn. eexists. split; [reflexivity|]. split; [reflexivity|].
  unfold add_log at 1. cbn [logs]. apply in_or_app. right. now left.
Qed.

End Get_properties.

Section Put_properties.

Variable ParseToken : string -> string -> option string.
Variable s_p : newServerParams.

(** X5.  [Put] on a path of five tokens or more that has no record, when
    the store executes every statement and the new id is not in use, adds
    one row, with the new id, the cleaned path, the checksum and the
    fingerprint of the call; the rows that were there keep their order,
    ids, paths and checksums and change at most by propagation. *)
Theorem Put_adds_one_record req etag newid now idt w :
  ParseToken (Put_AccessToken req) (sharedSecret s_p) = Some idt ->
  fault_free w ->
  (5 <= length (strings.Split (path.Clean (Put_Path req)) "/"))%nat ->
  find (fun rc => Path rc =? path.Clean (Put_Path req)) (rows w) = None ->
  ~ In newid (map ID (rows w)) ->
  exists paths w' old,
    getPathsTillHome (path.Clean (Put_Path req)) = Ret paths /\
    Put ParseToken s_p req etag newid now w = (Ret None, w') /\
    rows w' = (old ++ [mkRecord newid (path.Clean (Put_Path req))
                         (Put_Checksum req) etag (uint32 now)])%list /\
    Forall2 (touched paths etag (uint32 now)) (rows w) old.
Proof.
  intros Hauth Hff Hdeep Hmiss Hfresh.
  destruct (getPathsTillHome_deep _ Hdeep) as (paths & Hpaths).
  destruct (Put_fault_free ParseToken s_p req etag newid now idt paths w
              Hauth Hff Hpaths) as (w' & Hput & _ & Ht).
  unfold put_id in Ht. rewrite Hmiss in Ht.
  rewrite upsert_fresh in Ht by assumption.
  apply Forall2_app_inv_l in Ht.
  destruct Ht as (old & last & Hold & Hlast & Hrows).
  inversion Hlast as [|? new' ? ? Hnew Hnil]; subst. inversion Hnil; subst.
  exists paths, w', old. repeat split; try assumption.
  rewrite Hrows. f_equal. f_equal.
  destruct Hnew as [-> | (_ & Hlt & _)]; [reflexivity|]. cbn in Hlt. lia.
Qed.

(** X6.  [Put] on a path of five tokens or more that has a record, in a
    table with distinct ids and when the store executes every statement,
    adds no row and moves none: the record of the path keeps its id and
    takes the checksum and the fingerprint of the call. *)
Theorem Put_keeps_the_id_of_a_stored_path req etag newid now idt r w :
  ParseToken (Put_AccessToken req) (sharedSecret s_p) = Some idt ->
  fault_free w ->
  (5 <= length (strings.Split (path.Clean (Put_Path req)) "/"))%nat ->
  NoDup (map ID (rows w)) ->
  find (fun rc => Path rc =? path.Clean (Put_Path req)) (rows w) = Some r ->
  exists w',
    Put ParseToken s_p req etag newid now w = (Ret None, w') /\
    find (fun rc => Path rc =? path.Clean (Put_Path req)) (rows w')
    = Some (mkRecord (ID r) (path.Clean (Put_Path req)) (Put_Checksum req)
                     etag (uint32 now)) /\
    map ID (rows w') = map ID (rows w) /\
    map Path (rows w') = map Path (rows w).
Proof.
  intros Hauth Hff Hdeep Hnd Hfind.
  destruct (getPathsTillHome_deep _ Hdeep) as (paths & Hpaths).
  destruct (Put_fault_free ParseToken s_p req etag newid now idt paths w
              Hauth Hff Hpaths) as (w' & Hput & _ & Ht).
  unfold put_id in Ht. rewrite Hfind in Ht.
  destruct (upsert_found (path.Clean (Put_Path req)) (Put_Checksum req) etag
              (uint32 now) r (rows w) Hnd Hfind) as (Hf & Hi & Hp).
  destruct (touched_all_keys _ _ _ _ _ Ht) as (Hi' & Hp' & _).
  exists w'. repeat split; try congruence.
  eapply touched_find; [exact Ht|exact Hf|cbn; lia].
Qed.

(** X7.  [Put] and then [Get] on the same path of five tokens or more, in
    a table with distinct ids where the new id is not in use and with a
    store that executes every statement: [Get] answers with the cleaned
    path, the checksum and the fingerprint of the [Put], under the id that
    the path had before, or under the new id if it had none. *)
Theorem Get_after_Put_reads_back req etag newid now idt w :
  ParseToken (Put_AccessToken req) (sharedSecret s_p) = Some idt ->
  fault_free w ->
  (5 <= length (strings.Split (path.Clean (Put_Path req)) "/"))%nat ->
  NoDup (map ID (rows w)) ->
  ~ In newid (map ID (rows w)) ->
  exists w',
    Put ParseToken s_p req etag newid now w = (Ret None, w') /\
    forall force etag2 newid2 now2, exists w'',
      Get ParseToken s_p (mkGetReq (Put_AccessToken req) (Put_Path req) force)
          etag2 newid2 now2 w'
      = (Ret (pb.mkRecord_
                (put_id (path.Clean (Put_Path req)) newid (rows w))
                (path.Clean (Put_Path req)) etag (uint32 now)
                (Put_Checksum req), None), w'').
Proof.
  intros Hauth Hff Hdeep Hnd Hfresh.
  destruct (getPathsTillHome_deep _ Hdeep) as (paths & Hpaths).
  destruct (Put_fault_free ParseToken s_p req etag newid now idt paths w
              Hauth Hff Hpaths) as (w' & Hput & Hff' & Ht).
  destruct (upsert_then_lookup (path.Clean (Put_Path req)) (Put_Checksum req)
              etag (uint32 now) newid (rows w) Hnd (fun _ => Hfresh))
    as [Hf _].
  assert (Hfound := touched_find _ _ _ _ _ _ _ Ht Hf).
  exists w'. split; [assumption|]. intros force etag2 newid2 now2.
  rewrite (Get_run ParseToken s_p _ etag2 newid2 now2 idt); cbn;
    [| exact Hauth |].
  - rewrite Hfound by (cbn; lia). eexists. reflexivity.
  - unfold fault_free in Hff'. destruct (faults w'); [reflexivity|].
    now inversion Hff'.
Qed.

(** X8.  Two calls of [Put] on the same path of five tokens or more, under
    the same conditions: after the second call the record of the path has
    the id it was given by the first and the checksum and the fingerprint
    of the second. *)
Theorem Put_twice_keeps_the_id req ck2 etag newid now etag2 newid2 now2 idt w :
  ParseToken (Put_AccessToken req) (sharedSecret s_p) = Some idt ->
  fault_free w ->
  (5 <= length (strings.Split (path.Clean (Put_Path req)) "/"))%nat ->
  NoDup (map ID (rows w)) ->
  ~ In newid (map ID (rows w)) ->
  exists w1 w2,
    Put ParseToken s_p req etag newid now w = (Ret None, w1) /\
    Put ParseToken s_p
        (mkPutReq (Put_AccessToken req) (Put_Path req) ck2)
        etag2 newid2 now2 w1 = (Ret None, w2) /\
    find (fun rc => Path rc =? path.Clean (Put_Path req)) (rows w2)
    = Some (mkRecord (put_id (path.Clean (Put_Path req)) newid (rows w))
                     (path.Clean (Put_Path req)) ck2 etag2 (uint32 now2)).
Proof.
  intros Hauth Hff Hdeep Hnd Hfresh.
  destruct (getPathsTillHome_deep _ Hdeep) as (paths & Hpaths).
  destruct (Put_fault_free ParseToken s_p req etag newid now idt paths w
              Hauth Hff Hpaths) as (w1 & Hput1 & Hff1 & Ht1).
  destruct (upsert_then_lookup (path.Clean (Put_Path req)) (Put_Checksum req)
              etag (uint32 now) newid (rows w) Hnd (fun _ => Hfresh))
    as [Hf1 Hnd1].
  assert (Hfound1 := touched_find _ _ _ _ _ _ _ Ht1 Hf1).
  specialize (Hfound1 ltac:(cbn; lia)).
  destruct (touched_all_keys _ _ _ _ _ Ht1) as (Hids1 & _ & _).
  rewrite <- Hids1 in Hnd1.
  set (req2 := mkPutReq (Put_AccessToken req) (Put_Path req) ck2).
  destruct (Put_fault_free ParseToken s_p req2 etag2 newid2 now2 idt paths w1
              Hauth Hff1 Hpaths) as (w2 & Hput2 & _ & Ht2).
  cbn [req2 Put_Path Put_Checksum] in Ht2.
  unfold put_id at 1 in Ht2. rewrite Hfound1 in Ht2. cbn [ID] in Ht2.
  destruct (upsert_found (path.Clean (Put_Path req)) ck2 etag2 (uint32 now2)
              _ (rows w1) Hnd1 Hfound1) as (Hf2 & _ & _).
  cbn [ID] in Hf2.
  exists w1, w2. repeat split; try assumption.
  eapply touched_find; [exact Ht2|exact Hf2|cbn; lia].
Qed.

(** X9.  When the store fails the lookup or the insert of [Put], the call
    returns that error and the table is as before: nothing is written and
    nothing is propagated. *)
Theorem Put_returns_the_store_failure req etag newid now idt msg fs w :
  ParseToken (Put_AccessToken req) (sharedSecret s_p) = Some idt ->
  faults w = Some msg :: fs \/ faults w = None :: Some msg :: fs ->
  exists w',
    Put ParseToken s_p req etag newid now w
    = (Ret (Some (driverError msg)), w') /\
    rows w' = rows w /\ faults w' = fs.
Proof.
  intros Hauth [Hf|Hf]; unfold Put; rewrite Hauth;
    unfold bind at 1; rewrite getByPath_run, Hf.
  - unfold bind at 1. cbn [log_Error error_eqb].
    eexists. split; [reflexivity|]. cbn. auto.
  - unfold lookup.
    destruct (find _ (rows w));
      try (unfold bind at 1; cbn [log_Error error_eqb]);
      unfold Put_save, insert, gorm.Exec_insert, bind, next_fault, ret; cbn;
      eexists; (split; [reflexivity|]); cbn; auto.
Qed.

(** X10.  On a path of five tokens or more, in a table with distinct ids
    where the new id is not in use, once the lookup and the insert of
    [Put] have executed the call returns [nil] and the lookup of the path
    finds the record written, whatever the store answers to the statements
    of the propagation. *)
Theorem Put_write_outlives_propagation_failures req etag newid now idt w :
  ParseToken (Put_AccessToken req) (sharedSecret s_p) = Some idt ->
  hd None (faults w) = None ->
  hd None (tl (faults w)) = None ->
  (5 <= length (strings.Split (path.Clean (Put_Path req)) "/"))%nat ->
  NoDup (map ID (rows w)) ->
  ~ In newid (map ID (rows w)) ->
  exists w',
    Put ParseToken s_p req etag newid now w = (Ret None, w') /\
    find (fun rc => Path rc =? path.Clean (Put_Path req)) (rows w')
    = Some (mkRecord (put_id (path.Clean (Put_Path req)) newid (rows w))
                     (path.Clean (Put_Path req)) (Put_Checksum req) etag
                     (uint32 now)).
Proof.
  intros Hauth Hf1 Hf2 Hdeep Hnd Hfresh.
  destruct (getPathsTillHome_deep _ Hdeep) as (paths & Hpaths).
  destruct (Put_run_deep ParseToken s_p req etag newid now idt paths w
              Hauth Hf1 Hf2 Hpaths) as (w' & Hput & Ht).
  destruct (upsert_then_lookup (path.Clean (Put_Path req)) (Put_Checksum req)
              etag (uint32 now) newid (rows w) Hnd (fun _ => Hfresh))
    as [Hf _].
  exists w'. split; [assumption|].
  eapply touched_find; [exact Ht|exact Hf|cbn; lia].
Qed.

End Put_properties.

Section Access_properties.

Variable ParseToken : string -> string -> option string.
Variable s_p : newServerParams.

(** X11.  A call whose token the token library rejects ends at once with
    the [Unauthenticated] error, whichever of the four handlers it is: no
    statement reaches the store (the table and the answers still to come
    are as before) and the refusal is logged. *)
Theorem rejected_token_reaches_no_store
    (get : GetReq) (put : PutReq) (mv : MvReq) (rm : RmReq)
    etag newid now w :
  ParseToken (Get_AccessToken get) (sharedSecret s_p) = None ->
  ParseToken (Put_AccessToken put) (sharedSecret s_p) = None ->
  ParseToken (Mv_AccessToken mv) (sharedSecret s_p) = None ->
  ParseToken (Rm_AccessToken rm) (sharedSecret s_p) = None ->
  let w' := add_log (LogError unauthenticatedError) w in
  Get ParseToken s_p get etag newid now w
  = (Ret (no_record, Some unauthenticatedError), w') /\
  Put ParseToken s_p put etag newid now w
  = (Ret (Some unauthenticatedError), w') /\
  Mv ParseToken s_p mv etag now w = (Ret (Some unauthenticatedError), w') /\
  Rm ParseToken s_p rm now etag w = (Ret (Some unauthenticatedError), w') /\
  rows w' = rows w /\ faults w' = faults w.
Proof.
  intros Hg Hp Hm Hr w'. unfold Get, Put, Mv, Rm.
  rewrite Hg, Hp, Hm, Hr. repeat split.
Qed.

End Access_properties.

Section Rm_properties.

Variable ParseToken : string -> string -> option string.
Variable s_p : newServerParams.

(** X12.  [Rm] on a path of five tokens or more, once its delete has
    executed: the rows left are the rows that the delete did not select
    (path not matching [p%], or mtime not below the time of the call), in
    their order and with their ids, paths and checksums; they change at
    most by the propagation from the path. *)
Theorem Rm_leaves_the_unselected_rows req now etag idt w :
  ParseToken (Rm_AccessToken req) (sharedSecret s_p) = Some idt ->
  hd None (faults w) = None ->
  (5 <= length (strings.Split (path.Clean (Rm_Path req)) "/"))%nat ->
  let kept := filter (fun rc => negb (doomed (path.Clean (Rm_Path req)) now rc))
                     (rows w) in
  exists paths w',
    getPathsTillHome (path.Clean (Rm_Path req)) = Ret paths /\
    Rm ParseToken s_p req now etag w = (Ret None, w') /\
    map ID (rows w') = map ID kept /\
    map Path (rows w') = map Path kept /\
    map Checksum (rows w') = map Checksum kept /\
    Forall2 (touched paths etag (uint32 now)) kept (rows w').
Proof.
  intros Hauth Hf Hdeep kept.
  destruct (Rm_effect ParseToken s_p req now etag idt w Hauth Hf Hdeep)
    as (paths & w' & Hpaths & Hrm & Ht).
  destruct (touched_all_keys _ _ _ _ _ Ht) as (Hi & Hp & Hc).
  exists paths, w'. repeat split; assumption.
Qed.

(** X13.  A record whose mtime is not below the time of the call comes out
    of such an [Rm] exactly as it went in. *)
Theorem Rm_keeps_newer_records req now etag idt w r :
  ParseToken (Rm_AccessToken req) (sharedSecret s_p) = Some idt ->
  hd None (faults w) = None ->
  (5 <= length (strings.Split (path.Clean (Rm_Path req)) "/"))%nat ->
  (0 <= now)%Z ->
  In r (rows w) -> (now <= Z.of_N (MTime r))%Z ->
  exists w', Rm ParseToken s_p req now etag w = (Ret None, w') /\
             In r (rows w').
Proof. apply Rm_spares_newer. Qed.

(** X14.  In a table with distinct ids, a record with an mtime below the
    time of the call whose path begins with the characters of the cleaned
    argument is gone after [Rm], whether the characters that follow begin
    with a slash or not; the argument is taken free of [LIKE] wildcards. *)
Theorem Rm_removes_every_older_match req now etag idt w r t :
  ParseToken (Rm_AccessToken req) (sharedSecret s_p) = Some idt ->
  hd None (faults w) = None ->
  (5 <= length (strings.Split (path.Clean (Rm_Path req)) "/"))%nat ->
  literal (path.Clean (Rm_Path req)) = true ->
  NoDup (map ID (rows w)) ->
  In r (rows w) ->
  Path r = path.Clean (Rm_Path req) ++ t ->
  (Z.of_N (MTime r) < now)%Z ->
  exists w', Rm ParseToken s_p req now etag w = (Ret None, w') /\
             ~ In (ID r) (map ID (rows w')).
Proof. apply Rm_deletes_every_match. Qed.

(** X15.  When the store fails the delete of [Rm], the call returns that
    error, the table is as before and nothing is propagated. *)
Theorem Rm_returns_the_store_failure req now etag idt msg fs w :
  ParseToken (Rm_AccessToken req) (sharedSecret s_p) = Some idt ->
  faults w = Some msg :: fs ->
  exists w',
    Rm ParseToken s_p req now etag w = (Ret (Some (driverError msg)), w') /\
    rows w' = rows w /\ faults w' = fs.
Proof.
  intros Hauth Hf. unfold Rm. rewrite Hauth.
  unfold gorm.Delete, bind, next_fault, ret, log_Error. rewrite Hf.
  cbn. eexists. split; [reflexivity|]. auto.
Qed.

End Rm_properties.

Section Propagation_properties.

(** X16.  [propagateChanges] never removes, adds or reorders a row, never
    changes an id, a path or a checksum, and never lowers an mtime,
    whatever the store answers and also when the resolver panics. *)
Theorem propagateChanges_only_raises_mtimes p etag mtime stop w :
  exists out w',
    propagateChanges p etag mtime stop w = (out, w') /\
    Forall2 (fun r r' => ID r' = ID r /\ Path r' = Path r /\
                         Checksum r' = Checksum r /\
                         (MTime r <= MTime r')%N)
            (rows w) (rows w').
Proof.
  assert (Hrefl : forall rs : list record,
            Forall2 (fun r r' => ID r' = ID r /\ Path r' = Path r /\
                                 Checksum r' = Checksum r /\
                                 (MTime r <= MTime r')%N) rs rs).
  { induction rs; constructor; auto. repeat split. lia. }
  destruct (getPathsTillHome p) as [paths|msg] eqn:Hpaths.
  - destruct (propagateChanges_deep p etag mtime stop paths w Hpaths)
      as (w' & Hrun & Ht).
    exists (Ret None), w'. split; [assumption|].
    eapply Forall2_impl; [|exact Ht].
    intros r r' [-> | (_ & Hlt & ->)].
    + repeat split. lia.
    + destruct (assign_fingerprint_keys etag mtime r) as (Hi & Hp & Hc).
      rewrite (assign_fingerprint_mtime etag mtime r Hlt).
      repeat split; try assumption. lia.
  - exists (Panic msg), w. split; [|apply Hrefl].
    now apply propagateChanges_shallow.
Qed.

(** X17.  Once its statement has executed, [update] reports the number of
    records of the path that were older than the mtime supplied;
    afterwards no record of the path is older, and the records of the
    other paths are as before. *)
Theorem update_brings_the_path_up_to_date p etag mtime w :
  hd None (faults w) = None ->
  exists w',
    update p etag mtime w
    = (Ret (Z.of_nat (length (filter (stale_at p mtime) (rows w)))), w') /\
    not_older_at p mtime (rows w') /\
    Forall2 (fun r r' => Path r <> p -> r' = r) (rows w) (rows w').
Proof.
  intros Hf. rewrite update_run.
  assert (Hother : Forall2 (fun r r' => Path r <> p -> r' = r) (rows w)
            (gorm.update_where (stale_at p mtime) (fingerprint etag mtime)
                               (rows w))).
  { unfold gorm.update_where. induction (rows w) as [|r rs IH];
      cbn [map]; constructor; [|exact IH].
    intros Hp. destruct (stale_at p mtime r) eqn:Hs; [|reflexivity].
    apply stale_at_true in Hs. destruct Hs. contradiction. }
  destruct (faults w) as [|[msg|] fs]; cbn in Hf; try discriminate;
    eexists; (split; [reflexivity|]); cbn [rows set_rows set_faults];
    (split; [apply update_where_settles | exact Hother]).
Qed.

End Propagation_properties.

Section Mv_properties.

Variable ParseToken : string -> string -> option string.
Variable s_p : newServerParams.

Lemma Forall2_map_l_In {A B C} (g : A -> B) (R : B -> C -> Prop)
    (Q : A -> C -> Prop) (l : list A) :
  (forall a c, In a l -> R (g a) c -> Q a c) ->
  forall l', Forall2 R (map g l) l' -> Forall2 Q l l'.
Proof.
  induction l as [|a l IH]; intros HQ l' H; inversion H; subst;
    constructor.
  - apply HQ; [now left|assumption].
  - apply IH; [|assumption]. intros a' c Ha'. apply HQ. now right.
Qed.

(** X18.  [Mv] with a destination of five tokens or more, in a table with
    distinct ids and when the store executes every statement: the call
    returns [nil]; every record whose path matches [src%] ends with the
    path [path.Join(dst, path.Clean(strings.Trim(path, src)))], the etag
    and the mtime of the call, its id and checksum kept; every other
    record changes at most by the propagation from the destination. *)
Theorem Mv_rewrites_each_match req etag now idt w :
  ParseToken (Mv_AccessToken req) (sharedSecret s_p) = Some idt ->
  fault_free w ->
  NoDup (map ID (rows w)) ->
  (5 <= length (strings.Split (path.Clean (Dst req)) "/"))%nat ->
  let src := path.Clean (Src req) in
  let dst := path.Clean (Dst req) in
  exists paths w',
    getPathsTillHome dst = Ret paths /\
    Mv ParseToken s_p req etag now w = (Ret None, w') /\
    Forall2
      (fun r r' =>
         if like_prefix src r
         then r' = gorm.assign
                     (renamed (new_path src dst r) etag (uint32 now)) r
         else touched paths etag (uint32 now) r r')
      (rows w) (rows w').
Proof.
  intros Hauth Hff Hnd Hdeep src dst.
  destruct (getPathsTillHome_deep _ Hdeep) as (paths & Hpaths).
  exists paths. unfold Mv. rewrite Hauth. fold src dst.
  unfold bind at 1.
  assert (Hlook : exists w1,
            getRecordsWithPathPrefix src w
            = (Ret (filter (like_prefix src) (rows w), None), w1) /\
            rows w1 = rows w /\ fault_free w1).
  { rewrite getRecordsWithPathPrefix_run. unfold fault_free in *.
    destruct (faults w) as [|[msg|] fs] eqn:Hf.
    - exists w. rewrite Hf. auto.
    - inversion Hff; discriminate.
    - exists (set_faults fs w). inversion Hff; subst. auto. }
  destruct Hlook as (w1 & -> & Hrows1 & Hff1).
  unfold bind at 1. unfold gorm.Begin at 1.
  destruct (rename_loop_fault_free src dst etag (uint32 now) gorm.tx
              (filter (like_prefix src) (rows w)) (set_pending [] w1))
    as (w2 & Hloop & Hff2 & Hp2 & Hrows2); [exact Hff1|].
  cbn [rows set_pending pending] in Hrows2, Hp2. rewrite Hrows1 in Hrows2.
  rewrite rename_all_on_selection in Hrows2 by assumption.
  unfold bind at 1. rewrite Hloop.
  unfold bind at 1. unfold gorm.Commit at 1. rewrite Hp2. cbn [fold_left].
  match goal with
  | |- context [bind (propagateChanges ?p ?e ?m ?s) ?k ?w0] =>
      destruct (propagateChanges_deep p e m s paths w0 Hpaths)
        as (w' & Hprop & Ht)
  end.
  unfold bind at 1. rewrite Hprop. unfold bind, ret.
  exists w'. split; [exact Hpaths|]. split; [reflexivity|].
  cbn [rows set_pending set_rows] in Ht. rewrite Hrows2 in Ht.
  eapply Forall2_map_l_In; [|exact Ht].
  intros r r' _ Hr. cbn beta in Hr.
  destruct (like_prefix src r); [|exact Hr].
  destruct Hr as [-> | (_ & Hlt & _)]; [reflexivity|].
  exfalso. destruct r as [i p c e m]. cbn in Hlt.
  destruct (N.eqb_spec (uint32 now) 0); lia.
Qed.

(** X19.  Whatever the store answers, and whether [Mv] returns or panics,
    the table keeps its rows in number and order, and every row keeps its
    id and its checksum. *)
Theorem Mv_never_changes_ids_or_checksums req etag now w :
  exists out w',
    Mv ParseToken s_p req etag now w = (out, w') /\
    map ID (rows w') = map ID (rows w) /\
    map Checksum (rows w') = map Checksum (rows w).
Proof. apply Mv_keeps_ids_and_checksums. Qed.

(** X20.  With a destination of five tokens or more, a prefix lookup that
    the store fails is invisible to the caller of [Mv]: the failure is
    logged, the call returns [nil], no record is renamed, and the table
    changes at most by the propagation from the destination. *)
Theorem Mv_swallows_a_failed_lookup req etag now idt msg fs w :
  ParseToken (Mv_AccessToken req) (sharedSecret s_p) = Some idt ->
  faults w = Some msg :: fs ->
  (5 <= length (strings.Split (path.Clean (Dst req)) "/"))%nat ->
  exists paths w',
    getPathsTillHome (path.Clean (Dst req)) = Ret paths /\
    Mv ParseToken s_p req etag now w = (Ret None, w') /\
    map Path (rows w') = map Path (rows w) /\
    Forall2 (touched paths etag (uint32 now)) (rows w) (rows w').
Proof.
  intros Hauth Hf Hdeep.
  destruct (getPathsTillHome_deep _ Hdeep) as (paths & Hpaths).
  destruct (Mv_masks_lookup_failure ParseToken s_p req etag now idt paths
              msg fs w Hauth Hf Hpaths) as (w' & Hmv & Ht).
  destruct (touched_all_keys _ _ _ _ _ Ht) as (_ & Hp & _).
  exists paths, w'. auto.
Qed.

(** X21.  When the store executes the lookup of [Mv] and the first [k]
    updates of the batch and fails the next one, [Mv] returns that error
    and the [k] records already renamed stay renamed: the table is the one
    that the [k] statements leave, [tx.Rollback()] changes nothing, and
    there is no propagation. *)
Theorem Mv_failure_keeps_the_renames_done req etag now idt msg fs k w :
  ParseToken (Mv_AccessToken req) (sharedSecret s_p) = Some idt ->
  let src := path.Clean (Src req) in
  let dst := path.Clean (Dst req) in
  let recs := filter (like_prefix src) (rows w) in
  (k < length recs)%nat ->
  faults w = (None :: repeat None k ++ Some msg :: fs)%list ->
  exists w',
    Mv ParseToken s_p req etag now w = (Ret (Some (driverError msg)), w') /\
    rows w' = rename_all src dst etag (uint32 now) (firstn k recs) (rows w) /\
    faults w' = fs.
Proof.
  intros Hauth src dst recs Hk Hf. unfold Mv. rewrite Hauth. fold src dst.
  unfold bind at 1. rewrite getRecordsWithPathPrefix_run, Hf. fold recs.
  unfold bind at 1. unfold gorm.Begin at 1.
  destruct (rename_loop_fails_at src dst etag (uint32 now) gorm.tx msg fs k
              recs (set_pending [] (set_faults
                                      (repeat None k ++ Some msg :: fs) w)))
    as (w' & Hloop & Hrows & Hfs); [assumption|reflexivity|reflexivity|].
  unfold bind at 1. rewrite Hloop.
  exists w'. auto.
Qed.

End Mv_properties.

Section Lookup_properties.

Lemma list_ascii_of_string_app a b :
  list_ascii_of_string (a ++ b)
  = (list_ascii_of_string a ++ list_ascii_of_string b)%list.
Proof. induction a as [|c a IH]; cbn; [reflexivity|now rewrite IH]. Qed.

(** A pattern and a string that begin with the same wildcard-free
    characters match as their rests do. *)
Lemma like_literal_app pre : literal pre = true ->
  forall q s,
    sql.like (list_ascii_of_string pre ++ q) (list_ascii_of_string pre ++ s)
    = sql.like q s.
Proof.
  induction pre as [|c pre IH]; intros Hlit q s; [reflexivity|].
  cbn [literal] in Hlit. apply andb_true_iff in Hlit. destruct Hlit as [Hc Hp].
  cbn [list_ascii_of_string app]. rewrite like_literal_char by assumption.
  rewrite Ascii.eqb_refl. cbn [andb]. now apply IH.
Qed.

(** X22.  Once its query has executed, and for an argument free of [LIKE]
    wildcards, [getRecordsWithPathPrefix] returns a [nil] error and exactly
    the stored records whose path begins with the characters of the
    argument, whatever follows them; the table is as before. *)
Theorem getRecordsWithPathPrefix_matches_characters p w :
  hd None (faults w) = None ->
  literal p = true ->
  exists recs w',
    getRecordsWithPathPrefix p w = (Ret (recs, None), w') /\
    rows w' = rows w /\
    forall r, In r recs <-> In r (rows w) /\ exists t, Path r = p ++ t.
Proof.
  intros Hf Hlit. rewrite getRecordsWithPathPrefix_run.
  assert (Hchar : forall r,
            In r (filter (like_prefix p) (rows w)) <->
            In r (rows w) /\ exists t, Path r = p ++ t).
  { intros r. rewrite filter_In. unfold like_prefix.
    now rewrite (LIKE_prefix_iff p (Path r) Hlit). }
  destruct (faults w) as [|[msg|] fs]; cbn in Hf; try discriminate;
    do 2 eexists; (split; [reflexivity|]); (split; [reflexivity|]);
    exact Hchar.
Qed.

(** X23.  The argument of [getRecordsWithPathPrefix] goes into the [LIKE]
    pattern as it is: an underscore in it stands for any character.  Once
    the query has executed, a stored record whose path has any character
    where the argument has an underscore, between the same wildcard-free
    characters, is among the records returned. *)
Theorem getRecordsWithPathPrefix_underscore_is_a_wildcard pre post c t r w :
  hd None (faults w) = None ->
  literal pre = true -> literal post = true ->
  In r (rows w) ->
  Path r = pre ++ String c (post ++ t) ->
  exists recs w',
    getRecordsWithPathPrefix (pre ++ String "_" post) w
    = (Ret (recs, None), w') /\
    In r recs.
Proof.
  intros Hf Hpre Hpost Hin Hpath. rewrite getRecordsWithPathPrefix_run.
  assert (Hsel : In r (filter (like_prefix (pre ++ String "_" post)) (rows w))).
  { apply filter_In. split; [assumption|].
    unfold like_prefix, sql.LIKE. rewrite Hpath.
    rewrite append_assoc.
    rewrite (list_ascii_of_string_app pre (String "_" post ++ "%")),
            (list_ascii_of_string_app pre (String c (post ++ t))).
    rewrite like_literal_app by assumption.
    cbn [append list_ascii_of_string sql.like Ascii.eqb Bool.eqb].
    change (sql.LIKE (post ++ t) (post ++ "%") = true).
    apply (LIKE_prefix_iff post (post ++ t) Hpost). now exists t. }
  destruct (faults w) as [|[msg|] fs]; cbn in Hf; try discriminate;
    do 2 eexists; (split; [reflexivity|]); exact Hsel.
Qed.

End Lookup_properties.

Section Resolver_properties.

Lemma Clean_keeps_the_root p :
  path.rooted p = true -> path.rooted (path.Clean p) = true.
Proof.
  intros H. unfold path.Clean. destruct p as [|c p]; [discriminate|].
  cbn [String.eqb]. rewrite H. reflexivity.
Qed.

Lemma descend_rooted_all rest : forall previous,
  path.rooted previous = true ->
  Forall (fun q => path.rooted q = true) (descend previous rest) /\
  length (descend previous rest) = length rest.
Proof.
  induction rest as [|token rest IH]; intros previous Hr; [split; constructor|].
  cbn [descend].
  assert (Hnext : path.rooted (path.Join [previous; path.Clean token]) = true).
  { cbn [path.Join]. destruct previous as [|c previous]; [discriminate|].
    cbn [String.eqb]. apply Clean_keeps_the_root. exact Hr. }
  destruct (IH _ Hnext) as [Hall Hlen]. split.
  - constructor; assumption.
  - cbn [length]. now rewrite Hlen.
Qed.

(** X24.  On every path of five tokens or more, normalized or not, the
    resolver returns without panic one path for the home directory and one
    for each further token, and every path returned is absolute, also when
    the argument is relative. *)
Theorem getPathsTillHome_returns_absolute_paths p :
  (5 <= length (strings.Split p "/"))%nat ->
  exists paths,
    getPathsTillHome p = Ret paths /\
    length paths = (length (strings.Split p "/") - 4)%nat /\
    Forall (fun q => path.rooted q = true) paths.
Proof.
  intros Hdeep. unfold getPathsTillHome, slice_home_rest.
  destruct (Nat.ltb_spec (length (strings.Split p "/")) 5) as [Hlt|_];
    [lia|].
  set (home := path.Clean ("/" ++ path.Join (firstn 5 (strings.Split p "/")))).
  assert (Hhome : path.rooted home = true)
    by (apply Clean_keeps_the_root; reflexivity).
  destruct (descend_rooted_all (skipn 5 (strings.Split p "/")) home Hhome)
    as [Hall Hlen].
  eexists. split; [reflexivity|]. split.
  - cbn [length]. rewrite Hlen, length_skipn. lia.
  - constructor; assumption.
Qed.

(** X25.  On a normalized absolute path, the rooted path of four or more
    elements none of which is empty, [.], [..] or holds a slash, the
    resolver returns the paths of the first four elements, of the first
    five, and so on up to the path itself: each one element longer than
    the one before, the home directory first and the argument last. *)
Theorem getPathsTillHome_lists_the_prefixes es :
  Forall (fun e => plain e = true) es ->
  (4 <= length es)%nat ->
  getPathsTillHome (rooted_path es) =
  Ret (map (fun k => rooted_path (firstn k es)) (seq 4 (length es - 3))).
Proof. apply getPathsTillHome_normalized. Qed.

End Resolver_properties.

(** ** The further properties on the sample store *)

Ltac executes := repeat constructor.

Lemma Get_is_a_lookup_witness :
  let req := mkGetReq "t" "/local/users/d/demo/docs/" false in
  let w := world_of demo_rows [] in
  any_token (Get_AccessToken req) (sharedSecret params) = Some "t" /\
  hd None (faults w) = None /\
  ForceCreation req = false /\
  exists w',
    Get any_token params req "e-new" "id-new" 100 w =
    (Ret (match find (fun rc => Path rc =? path.Clean (Get_Path req))
                     (rows w) with
          | Some r => (answer_of r, None)
          | None => (no_record, Some RecordNotFound)
          end), w') /\
    rows w' = rows w.
Proof.
  intros req w. repeat split.
  exact (Get_is_a_lookup any_token params req "e-new" "id-new" 100 "t" w
           eq_refl eq_refl eq_refl).
Defined.

Lemma Get_returns_the_store_failure_witness :
  let req := mkGetReq "t" "/local/users/d/demo/docs/new.txt" true in
  let w := world_of demo_rows [Some "server has gone away"] in
  any_token (Get_AccessToken req) (sharedSecret params) = Some "t" /\
  faults w = [Some "server has gone away"] /\
  exists w',
    Get any_token params req "e-new" "id-new" 100 w =
    (Ret (no_record, Some (driverError "server has gone away")), w') /\
    rows w' = rows w /\ faults w' = [].
Proof.
  intros req w. repeat split.
  exact (Get_returns_the_store_failure any_token params req "e-new" "id-new"
           100 "t" "server has gone away" [] w eq_refl eq_refl).
Defined.

Lemma Get_creates_the_missing_record_witness :
  let req := mkGetReq "t" "/local/users/d/demo/docs/new.txt" true in
  let w := world_of demo_rows [] in
  let created := mkRecord "id-new" (path.Clean (Get_Path req)) "" "e-new"
                   (uint32 100) in
  fault_free w /\
  find (fun rc => Path rc =? path.Clean (Get_Path req)) (rows w) = None /\
  ~ In "id-new" (map ID (rows w)) /\
  exists w',
    Get any_token params req "e-new" "id-new" 100 w
    = (Ret (answer_of created, None), w') /\
    In created (rows w') /\
    forall etag2 newid2 now2, exists w'',
      Get any_token params
        (mkGetReq (Get_AccessToken req) (Get_Path req) false)
        etag2 newid2 now2 w'
      = (Ret (answer_of created, None), w'').
Proof.
  intros req w created.
  assert (Hff : fault_free w) by executes.
  assert (Hdeep : (5 <= length (strings.Split (path.Clean (Get_Path req))
                                  "/"))%nat) by (vm_compute; lia).
  assert (Hfresh : ~ In "id-new" (map ID (rows w))) by unused_id.
  split; [exact Hff|]. split; [reflexivity|]. split; [exact Hfresh|].
  exact (Get_creates_the_missing_record any_token params req "e-new"
           "id-new" 100 "t" w eq_refl Hff eq_refl Hdeep eq_refl Hfresh).
Defined.

Lemma Get_hides_the_failed_creation_witness :
  let req := mkGetReq "t" "/local/users/d/demo/docs/new.txt" true in
  let w := world_of demo_rows [None; None; Some "disk full"] in
  find (fun rc => Path rc =? path.Clean (Get_Path req)) (rows w) = None /\
  faults w = [None; None; Some "disk full"] /\
  exists w',
    Get any_token params req "e-new" "id-new" 100 w
    = (Ret (no_record, Some RecordNotFound), w') /\
    rows w' = rows w /\
    In (LogError (driverError "disk full")) (logs w').
Proof.
  intros req w. repeat split.
  exact (Get_hides_the_failed_creation any_token params req "e-new" "id-new"
           100 "t" "disk full" [] w eq_refl eq_refl eq_refl eq_refl).
Defined.

Lemma Put_adds_one_record_witness :
  let req := mkPutReq "t" "/local/users/d/demo/docs/new.txt" "ck" in
  let w := world_of demo_rows [] in
  fault_free w /\
  find (fun rc => Path rc =? path.Clean (Put_Path req)) (rows w) = None /\
  ~ In "id-new" (map ID (rows w)) /\
  exists paths w' old,
    getPathsTillHome (path.Clean (Put_Path req)) = Ret paths /\
    Put any_token params req "e-new" "id-new" 100 w = (Ret None, w') /\
    rows w' = (old ++ [mkRecord "id-new" (path.Clean (Put_Path req))
                         (Put_Checksum req) "e-new" (uint32 100)])%list /\
    Forall2 (touched paths "e-new" (uint32 100)) (rows w) old.
Proof.
  intros req w.
  assert (Hff : fault_free w) by executes.
  assert (Hdeep : (5 <= length (strings.Split (path.Clean (Put_Path req))
                                  "/"))%nat) by (vm_compute; lia).
  assert (Hfresh : ~ In "id-new" (map ID (rows w))) by unused_id.
  split; [exact Hff|]. split; [reflexivity|]. split; [exact Hfresh|].
  exact (Put_adds_one_record any_token params req "e-new" "id-new" 100 "t" w
           eq_refl Hff Hdeep eq_refl Hfresh).
Defined.

Lemma Put_keeps_the_id_of_a_stored_path_witness :
  let req := mkPutReq "t" "/local/users/d/demo/docs/notes.txt" "ck" in
  let w := world_of demo_rows [] in
  let r := mkRecord "id-notes" "/local/users/d/demo/docs/notes.txt" "c3" "e3"
             10 in
  fault_free w /\
  NoDup (map ID (rows w)) /\
  find (fun rc => Path rc =? path.Clean (Put_Path req)) (rows w) = Some r /\
  exists w',
    Put any_token params req "e-new" "id-new" 100 w = (Ret None, w') /\
    find (fun rc => Path rc =? path.Clean (Put_Path req)) (rows w')
    = Some (mkRecord (ID r) (path.Clean (Put_Path req)) (Put_Checksum req)
                     "e-new" (uint32 100)) /\
    map ID (rows w') = map ID (rows w) /\
    map Path (rows w') = map Path (rows w).
Proof.
  intros req w r.
  assert (Hff : fault_free w) by executes.
  assert (Hdeep : (5 <= length (strings.Split (path.Clean (Put_Path req))
                                  "/"))%nat) by (vm_compute; lia).
  assert (Hnd : NoDup (map ID (rows w))) by (cbn; distinct_ids).
  split; [exact Hff|]. split; [exact Hnd|]. split; [reflexivity|].
  exact (Put_keeps_the_id_of_a_stored_path any_token params req "e-new"
           "id-new" 100 "t" r w eq_refl Hff Hdeep Hnd eq_refl).
Defined.

Lemma Get_after_Put_reads_back_witness :
  let req := mkPutReq "t" "/local/users/d/demo/docs/notes.txt" "ck" in
  let w := world_of demo_rows [] in
  fault_free w /\
  NoDup (map ID (rows w)) /\
  ~ In "id-new" (map ID (rows w)) /\
  exists w',
    Put any_token params req "e-new" "id-new" 100 w = (Ret None, w') /\
    forall force etag2 newid2 now2, exists w'',
      Get any_token params
          (mkGetReq (Put_AccessToken req) (Put_Path req) force)
          etag2 newid2 now2 w'
      = (Ret (pb.mkRecord_
                (put_id (path.Clean (Put_Path req)) "id-new" (rows w))
                (path.Clean (Put_Path req)) "e-new" (uint32 100)
                (Put_Checksum req), None), w'').
Proof.
  intros req w.
  assert (Hff : fault_free w) by executes.
  assert (Hdeep : (5 <= length (strings.Split (path.Clean (Put_Path req))
                                  "/"))%nat) by (vm_compute; lia).
  assert (Hnd : NoDup (map ID (rows w))) by (cbn; distinct_ids).
  assert (Hfresh : ~ In "id-new" (map ID (rows w))) by unused_id.
  split; [exact Hff|]. split; [exact Hnd|]. split; [exact Hfresh|].
  exact (Get_after_Put_reads_back any_token params req "e-new" "id-new" 100
           "t" w eq_refl Hff Hdeep Hnd Hfresh).
Defined.

Lemma Put_twice_keeps_the_id_witness :
  let req := mkPutReq "t" "/local/users/d/demo/docs/new.txt" "ck1" in
  let w := world_of demo_rows [] in
  fault_free w /\
  NoDup (map ID (rows w)) /\
  ~ In "id-new" (map ID (rows w)) /\
  exists w1 w2,
    Put any_token params req "e-1" "id-new" 100 w = (Ret None, w1) /\
    Put any_token params
        (mkPutReq (Put_AccessToken req) (Put_Path req) "ck2")
        "e-2" "id-other-new" 200 w1 = (Ret None, w2) /\
    find (fun rc => Path rc =? path.Clean (Put_Path req)) (rows w2)
    = Some (mkRecord (put_id (path.Clean (Put_Path req)) "id-new" (rows w))
                     (path.Clean (Put_Path req)) "ck2" "e-2" (uint32 200)).
Proof.
  intros req w.
  assert (Hff : fault_free w) by executes.
  assert (Hdeep : (5 <= length (strings.Split (path.Clean (Put_Path req))
                                  "/"))%nat) by (vm_compute; lia).
  assert (Hnd : NoDup (map ID (rows w))) by (cbn; distinct_ids).
  assert (Hfresh : ~ In "id-new" (map ID (rows w))) by unused_id.
  split; [exact Hff|]. split; [exact Hnd|]. split; [exact Hfresh|].
  exact (Put_twice_keeps_the_id any_token params req "ck2" "e-1" "id-new" 100
           "e-2" "id-other-new" 200 "t" w eq_refl Hff Hdeep Hnd Hfresh).
Defined.

Lemma Put_returns_the_store_failure_witness :
  let req := mkPutReq "t" "/local/users/d/demo/docs/new.txt" "ck" in
  let w := world_of demo_rows [None; Some "disk full"] in
  (faults w = [Some "disk full"] \/ faults w = [None; Some "disk full"]) /\
  exists w',
    Put any_token params req "e-new" "id-new" 100 w
    = (Ret (Some (driverError "disk full")), w') /\
    rows w' = rows w /\ faults w' = [].
Proof.
  intros req w.
  assert (H : faults w = [Some "disk full"] \/
              faults w = [None; Some "disk full"]) by (right; reflexivity).
  split; [exact H|].
  exact (Put_returns_the_store_failure any_token params req "e-new" "id-new"
           100 "t" "disk full" [] w eq_refl H).
Defined.

Lemma Put_write_outlives_propagation_failures_witness :
  let req := mkPutReq "t" "/local/users/d/demo/docs/new.txt" "ck" in
  let w := world_of demo_rows
             [None; None; Some "lock wait"; Some "lock wait";
              Some "lock wait"] in
  hd None (faults w) = None /\
  hd None (tl (faults w)) = None /\
  NoDup (map ID (rows w)) /\
  ~ In "id-new" (map ID (rows w)) /\
  exists w',
    Put any_token params req "e-new" "id-new" 100 w = (Ret None, w') /\
    find (fun rc => Path rc =? path.Clean (Put_Path req)) (rows w')
    = Some (mkRecord (put_id (path.Clean (Put_Path req)) "id-new" (rows w))
                     (path.Clean (Put_Path req)) (Put_Checksum req) "e-new"
                     (uint32 100)).
Proof.
  intros req w.
  assert (Hdeep : (5 <= length (strings.Split (path.Clean (Put_Path req))
                                  "/"))%nat) by (vm_compute; lia).
  assert (Hnd : NoDup (map ID (rows w))) by (cbn; distinct_ids).
  assert (Hfresh : ~ In "id-new" (map ID (rows w))) by unused_id.
  split; [reflexivity|]. split; [reflexivity|].
  split; [exact Hnd|]. split; [exact Hfresh|].
  exact (Put_write_outlives_propagation_failures any_token params req "e-new"
           "id-new" 100 "t" w eq_refl eq_refl eq_refl Hdeep Hnd Hfresh).
Defined.

Lemma rejected_token_reaches_no_store_witness :
  let get := mkGetReq "bad" "/local/users/d/demo/docs" true in
  let put := mkPutReq "bad" "/local/users/d/demo/docs/new.txt" "ck" in
  let mv := mkMvReq "bad" "/local/users/d/demo/docs"
              "/local/users/d/demo/archive" in
  let rm := mkRmReq "bad" "/local/users/d/demo/docs" in
  let w := world_of demo_rows [] in
  let w' := add_log (LogError unauthenticatedError) w in
  no_token "bad" (sharedSecret params) = None /\
  Get no_token params get "e-new" "id-new" 100 w
  = (Ret (no_record, Some unauthenticatedError), w') /\
  Put no_token params put "e-new" "id-new" 100 w
  = (Ret (Some unauthenticatedError), w') /\
  Mv no_token params mv "e-new" 100 w = (Ret (Some unauthenticatedError), w') /\
  Rm no_token params rm 100 "e-new" w = (Ret (Some unauthenticatedError), w') /\
  rows w' = rows w /\ faults w' = faults w.
Proof.
  intros get put mv rm w w'. split; [reflexivity|].
  exact (rejected_token_reaches_no_store no_token params get put mv rm
           "e-new" "id-new" 100 w eq_refl eq_refl eq_refl eq_refl).
Defined.

Lemma Rm_leaves_the_unselected_rows_witness :
  let req := mkRmReq "t" "/local/users/d/demo/docs" in
  let w := world_of demo_rows [] in
  let kept := filter (fun rc => negb (doomed (path.Clean (Rm_Path req)) 100 rc))
                     (rows w) in
  hd None (faults w) = None /\
  exists paths w',
    getPathsTillHome (path.Clean (Rm_Path req)) = Ret paths /\
    Rm any_token params req 100 "e-new" w = (Ret None, w') /\
    map ID (rows w') = map ID kept /\
    map Path (rows w') = map Path kept /\
    map Checksum (rows w') = map Checksum kept /\
    Forall2 (touched paths "e-new" (uint32 100)) kept (rows w').
Proof.
  intros req w kept.
  assert (Hdeep : (5 <= length (strings.Split (path.Clean (Rm_Path req))
                                  "/"))%nat) by (vm_compute; lia).
  split; [reflexivity|].
  exact (Rm_leaves_the_unselected_rows any_token params req 100 "e-new" "t" w
           eq_refl eq_refl Hdeep).
Defined.

Lemma Rm_keeps_newer_records_witness :
  let req := mkRmReq "t" "/local/users/d/demo/docs" in
  let late := mkRecord "id-late" "/local/users/d/demo/docs/late.txt" "c5"
                "e5" 100 in
  let w := world_of (demo_rows ++ [late])%list [] in
  In late (rows w) /\ (100 <= Z.of_N (MTime late))%Z /\
  exists w', Rm any_token params req 100 "e-new" w = (Ret None, w') /\
             In late (rows w').
Proof.
  intros req late w.
  assert (Hdeep : (5 <= length (strings.Split (path.Clean (Rm_Path req))
                                  "/"))%nat) by (vm_compute; lia).
  assert (Hin : In late (rows w)) by (cbn; tauto).
  assert (Hnew : (100 <= Z.of_N (MTime late))%Z) by (cbn; lia).
  split; [exact Hin|]. split; [exact Hnew|].
  exact (Rm_keeps_newer_records any_token params req 100 "e-new" "t" w late
           eq_refl eq_refl Hdeep ltac:(lia) Hin Hnew).
Defined.

Lemma Rm_removes_every_older_match_witness :
  let req := mkRmReq "t" "/local/users/d/demo/docs" in
  let w := world_of demo_rows [] in
  let r := mkRecord "id-other" "/local/users/d/demo/docs2/x.txt" "c4" "e4"
             10 in
  literal (path.Clean (Rm_Path req)) = true /\
  NoDup (map ID (rows w)) /\
  In r (rows w) /\
  Path r = path.Clean (Rm_Path req) ++ "2/x.txt" /\
  (Z.of_N (MTime r) < 100)%Z /\
  exists w', Rm any_token params req 100 "e-new" w = (Ret None, w') /\
             ~ In (ID r) (map ID (rows w')).
Proof.
  intros req w r.
  assert (Hdeep : (5 <= length (strings.Split (path.Clean (Rm_Path req))
                                  "/"))%nat) by (vm_compute; lia).
  assert (Hnd : NoDup (map ID (rows w))) by (cbn; distinct_ids).
  assert (Hin : In r (rows w)) by (cbn; tauto).
  assert (Hold : (Z.of_N (MTime r) < 100)%Z) by (cbn; lia).
  split; [reflexivity|]. split; [exact Hnd|]. split; [exact Hin|].
  split; [reflexivity|]. split; [exact Hold|].
  exact (Rm_removes_every_older_match any_token params req 100 "e-new" "t" w
           r "2/x.txt" eq_refl eq_refl Hdeep eq_refl Hnd Hin eq_refl Hold).
Defined.

Lemma Rm_returns_the_store_failure_witness :
  let req := mkRmReq "t" "/local/users/d/demo/docs" in
  let w := world_of demo_rows [Some "read-only"] in
  faults w = [Some "read-only"] /\
  exists w',
    Rm any_token params req 100 "e-new" w
    = (Ret (Some (driverError "read-only")), w') /\
    rows w' = rows w /\ faults w' = [].
Proof.
  intros req w. split; [reflexivity|].
  exact (Rm_returns_the_store_failure any_token params req 100 "e-new" "t"
           "read-only" [] w eq_refl eq_refl).
Defined.

Lemma update_brings_the_path_up_to_date_witness :
  let p := "/local/users/d/demo/docs" in
  let w := world_of demo_rows [] in
  hd None (faults w) = None /\
  exists w',
    update p "e-new" 100 w
    = (Ret (Z.of_nat (length (filter (stale_at p 100) (rows w)))), w') /\
    not_older_at p 100 (rows w') /\
    Forall2 (fun r r' => Path r <> p -> r' = r) (rows w) (rows w').
Proof.
  intros p w. split; [reflexivity|].
  exact (update_brings_the_path_up_to_date p "e-new" 100%N w eq_refl).
Defined.

Lemma Mv_rewrites_each_match_witness :
  let req := mkMvReq "t" "/local/users/d/demo/docs"
               "/local/users/d/demo/archive" in
  let w := world_of demo_rows [] in
  let src := path.Clean (Src req) in
  let dst := path.Clean (Dst req) in
  fault_free w /\
  NoDup (map ID (rows w)) /\
  exists paths w',
    getPathsTillHome dst = Ret paths /\
    Mv any_token params req "e-new" 100 w = (Ret None, w') /\
    Forall2
      (fun r r' =>
         if like_prefix src r
         then r' = gorm.assign
                     (renamed (new_path src dst r) "e-new" (uint32 100)) r
         else touched paths "e-new" (uint32 100) r r')
      (rows w) (rows w').
Proof.
  intros req w src dst.
  assert (Hff : fault_free w) by executes.
  assert (Hdeep : (5 <= length (strings.Split (path.Clean (Dst req))
                                  "/"))%nat) by (vm_compute; lia).
  assert (Hnd : NoDup (map ID (rows w))) by (cbn; distinct_ids).
  split; [exact Hff|]. split; [exact Hnd|].
  exact (Mv_rewrites_each_match any_token params req "e-new" 100 "t" w
           eq_refl Hff Hnd Hdeep).
Defined.

Lemma Mv_swallows_a_failed_lookup_witness :
  let req := mkMvReq "t" "/local/users/d/demo/docs"
               "/local/users/d/demo/archive" in
  let w := world_of demo_rows [Some "connection refused"] in
  faults w = [Some "connection refused"] /\
  exists paths w',
    getPathsTillHome (path.Clean (Dst req)) = Ret paths /\
    Mv any_token params req "e-new" 100 w = (Ret None, w') /\
    map Path (rows w') = map Path (rows w) /\
    Forall2 (touched paths "e-new" (uint32 100)) (rows w) (rows w').
Proof.
  intros req w.
  assert (Hdeep : (5 <= length (strings.Split (path.Clean (Dst req))
                                  "/"))%nat) by (vm_compute; lia).
  split; [reflexivity|].
  exact (Mv_swallows_a_failed_lookup any_token params req "e-new" 100 "t"
           "connection refused" [] w eq_refl eq_refl Hdeep).
Defined.

Lemma Mv_failure_keeps_the_renames_done_witness :
  let req := mkMvReq "t" "/local/users/d/demo/docs"
               "/local/users/d/demo/archive" in
  let w := world_of demo_rows [None; None; None; Some "Deadlock found"] in
  let src := path.Clean (Src req) in
  let dst := path.Clean (Dst req) in
  let recs := filter (like_prefix src) (rows w) in
  (2 < length recs)%nat /\
  faults w = (None :: repeat None 2 ++ [Some "Deadlock found"])%list /\
  exists w',
    Mv any_token params req "e-new" 100 w
    = (Ret (Some (driverError "Deadlock found")), w') /\
    rows w' = rename_all src dst "e-new" (uint32 100) (firstn 2 recs) (rows w) /\
    faults w' = [].
Proof.
  intros req w src dst recs.
  assert (Hk : (2 < length recs)%nat) by (vm_compute; lia).
  split; [exact Hk|]. split; [reflexivity|].
  exact (Mv_failure_keeps_the_renames_done any_token params req "e-new" 100
           "t" "Deadlock found" [] 2 w eq_refl Hk eq_refl).
Defined.

Lemma getRecordsWithPathPrefix_matches_characters_witness :
  let p := "/local/users/d/demo/docs" in
  let w := world_of demo_rows [] in
  hd None (faults w) = None /\
  literal p = true /\
  exists recs w',
    getRecordsWithPathPrefix p w = (Ret (recs, None), w') /\
    rows w' = rows w /\
    forall r, In r recs <-> In r (rows w) /\ exists t, Path r = p ++ t.
Proof.
  intros p w. split; [reflexivity|]. split; [reflexivity|].
  exact (getRecordsWithPathPrefix_matches_characters p w eq_refl eq_refl).
Defined.

Lemma getRecordsWithPathPrefix_underscore_is_a_wildcard_witness :
  let pre := "/local/users/d/demo/docs" in
  let r := mkRecord "id-other" "/local/users/d/demo/docs2/x.txt" "c4" "e4"
             10 in
  let w := world_of demo_rows [] in
  literal pre = true /\
  In r (rows w) /\
  Path r = pre ++ String "2" ("" ++ "/x.txt") /\
  exists recs w',
    getRecordsWithPathPrefix (pre ++ String "_" "") w
    = (Ret (recs, None), w') /\
    In r recs.
Proof.
  intros pre r w.
  assert (Hin : In r (rows w)) by (cbn; tauto).
  split; [reflexivity|]. split; [exact Hin|]. split; [reflexivity|].
  exact (getRecordsWithPathPrefix_underscore_is_a_wildcard pre "" "2"%char
           "/x.txt" r w eq_refl eq_refl eq_refl Hin eq_refl).
Defined.

Lemma getPathsTillHome_returns_absolute_paths_witness :
  let p := "local/users/d/demo/photos/1.png" in
  (5 <= length (strings.Split p "/"))%nat /\
  exists paths,
    getPathsTillHome p = Ret paths /\
    length paths = (length (strings.Split p "/") - 4)%nat /\
    Forall (fun q => path.rooted q = true) paths.
Proof.
  intros p.
  assert (Hdeep : (5 <= length (strings.Split p "/"))%nat)
    by (vm_compute; lia).
  split; [exact Hdeep|].
  exact (getPathsTillHome_returns_absolute_paths p Hdeep).
Defined.

Lemma getPathsTillHome_lists_the_prefixes_witness :
  let es := ["local"; "users"; "d"; "demo"; "photos"; "1.png"] in
  Forall (fun e => plain e = true) es /\
  (4 <= length es)%nat /\
  getPathsTillHome (rooted_path es) =
  Ret (map (fun k => rooted_path (firstn k es)) (seq 4 (length es - 3))).
Proof.
  intros es.
  assert (Hall : Forall (fun e => plain e = true) es) by (repeat constructor).
  assert (Hlen : (4 <= length es)%nat) by (cbn; lia).
  split; [exact Hall|]. split; [exact Hlen|].
  exact (getPathsTillHome_lists_the_prefixes es Hall Hlen).
Defined.
